(** * In-memory operation store and CLI target options of the
      kyma-environment-broker: a shallow embedding and its properties.

    Sources embedded here:
    - [internal/storage/driver/memory/operation.go]
    - [cmd/cli/command/options.go]
*)

From stdpp Require Import gmap strings list fin_maps sorting.
From Stdlib Require Import ZArith Lia Ascii.

(** * Part I: definitions *)

(** ** Go's [int]

    The binaries are built for GOARCH=amd64, where [int] has 64 bits.
    An [int] is a [Z]; the arithmetic operators wrap around. *)

Definition min_int : Z := (- 2 ^ 63)%Z.
Definition max_int : Z := (2 ^ 63 - 1)%Z.

Definition int_range (z : Z) : Prop := (min_int ≤ z ≤ max_int)%Z.

Definition int_wrap (z : Z) : Z := ((z + 2 ^ 63) `mod` 2 ^ 64 - 2 ^ 63)%Z.

Definition int_add (a b : Z) : Z := int_wrap (a + b).
Definition int_sub (a b : Z) : Z := int_wrap (a - b).
Definition int_mul (a b : Z) : Z := int_wrap (a * b).

(** [len(xs)] of a slice or a map. *)
Definition len {A} (xs : list A) : Z := Z.of_nat (length xs).

(** [xs[i]]: [None] stands for the run-time panic "index out of range". *)
Definition index {A} (xs : list A) (i : Z) : option A :=
  if (i <? 0)%Z then None else xs !! Z.to_nat i.

(** ** package dberr: the error kinds the store returns.
    (The formatted message is dropped; only the kind is kept.) *)

Inductive dberr := NotFound | AlreadyExists | Conflict.

Inductive result (A : Type) :=
| Ok (a : A)
| Err (e : dberr).
Arguments Ok {A} a.
Arguments Err {A} e.

(** ** package internal: the operation types

    [internal.Operation] is the core shared by all kinds.  The fields are the
    ones the sources read or write ([converter.go], [operation.go]).
    [CreatedAt] is a [time.Time], kept as an instant counted from the zero
    [Time]; [State] is a [domain.LastOperationState], a string type. *)

Record Operation := mkOperation {
  ID : string;
  Version : Z;
  CreatedAt : Z;
  InstanceID : string;
  State : string;
  Description : string;
  OrchestrationID : string
}.

(** The three kinds embed [Operation] and carry kind-specific data the store
    never inspects (kept as one opaque field each). *)
Record ProvisioningOperation := mkProvisioning {
  pOperation : Operation;
  pData : string
}.

Record DeprovisioningOperation := mkDeprovisioning {
  dOperation : Operation;
  dData : string
}.

Record UpgradeKymaOperation := mkUpgradeKyma {
  uOperation : Operation;
  uData : string
}.

(** Zero values, as a map read of a missing key yields them. *)
Definition zeroOperation : Operation := mkOperation "" 0 0 "" "" "" "".
Definition zeroUpgradeKymaOperation : UpgradeKymaOperation :=
  mkUpgradeKyma zeroOperation "".

(** [op.Version = v], on the embedded core. *)
Definition withVersion (v : Z) (o : Operation) : Operation :=
  mkOperation (ID o) v (CreatedAt o) (InstanceID o) (State o) (Description o)
              (OrchestrationID o).

(** [time.Time.Before] *)
Definition Before (t u : Z) : bool := bool_decide (t < u)%Z.

(** [domain.InProgress], [domain.Succeeded], [domain.Failed] of brokerapi. *)
Definition InProgress : string := "in progress".
Definition Succeeded : string := "succeeded".
Definition Failed : string := "failed".

(** ** package memory: the store

    Every mutating method holds [mu] for its whole body, so each is one
    atomic transition of the store; a method is a function from the store
    to the new store and the returned values. *)

Record operations := mkOperations {
  provisioningOperations : gmap string ProvisioningOperation;
  deprovisioningOperations : gmap string DeprovisioningOperation;
  upgradeKymaOperations : gmap string UpgradeKymaOperation
}.

Definition NewOperation : operations := mkOperations ∅ ∅ ∅.

(** [for _, v := range m]: Go leaves the order unspecified; the embedding
    visits the entries in the order of [map_to_list]. *)
Definition range_values {A} (m : gmap string A) : list A := (map_to_list m).*2.

Definition InsertProvisioningOperation (s : operations)
    (operation : ProvisioningOperation) : operations * option dberr :=
  let id := ID (pOperation operation) in
  match provisioningOperations s !! id with
  | Some _ => (s, Some AlreadyExists)
  | None =>
      (mkOperations (<[id := operation]> (provisioningOperations s))
                    (deprovisioningOperations s) (upgradeKymaOperations s),
       None)
  end.

Definition GetProvisioningOperationByID (s : operations) (operationID : string)
    : result ProvisioningOperation :=
  match provisioningOperations s !! operationID with
  | None => Err NotFound
  | Some op => Ok op
  end.

Definition UpdateProvisioningOperation (s : operations)
    (op : ProvisioningOperation) : operations * result ProvisioningOperation :=
  match provisioningOperations s !! ID (pOperation op) with
  | None => (s, Err NotFound)
  | Some oldOp =>
      if bool_decide (Version (pOperation oldOp) ≠ Version (pOperation op))
      then (s, Err Conflict)
      else
        let op := mkProvisioning
                    (withVersion (int_add (Version (pOperation op)) 1)
                                 (pOperation op))
                    (pData op) in
        (mkOperations (<[ID (pOperation op) := op]> (provisioningOperations s))
                      (deprovisioningOperations s) (upgradeKymaOperations s),
         Ok op)
  end.

Definition InsertDeprovisioningOperation (s : operations)
    (operation : DeprovisioningOperation) : operations * option dberr :=
  let id := ID (dOperation operation) in
  match deprovisioningOperations s !! id with
  | Some _ => (s, Some AlreadyExists)
  | None =>
      (mkOperations (provisioningOperations s)
                    (<[id := operation]> (deprovisioningOperations s))
                    (upgradeKymaOperations s),
       None)
  end.

Definition GetDeprovisioningOperationByID (s : operations)
    (operationID : string) : result DeprovisioningOperation :=
  match deprovisioningOperations s !! operationID with
  | None => Err NotFound
  | Some op => Ok op
  end.

Definition UpdateDeprovisioningOperation (s : operations)
    (op : DeprovisioningOperation)
    : operations * result DeprovisioningOperation :=
  match deprovisioningOperations s !! ID (dOperation op) with
  | None => (s, Err NotFound)
  | Some oldOp =>
      if bool_decide (Version (dOperation oldOp) ≠ Version (dOperation op))
      then (s, Err Conflict)
      else
        let op := mkDeprovisioning
                    (withVersion (int_add (Version (dOperation op)) 1)
                                 (dOperation op))
                    (dData op) in
        (mkOperations (provisioningOperations s)
                      (<[ID (dOperation op) := op]> (deprovisioningOperations s))
                      (upgradeKymaOperations s),
         Ok op)
  end.

Definition InsertUpgradeKymaOperation (s : operations)
    (operation : UpgradeKymaOperation) : operations * option dberr :=
  let id := ID (uOperation operation) in
  match upgradeKymaOperations s !! id with
  | Some _ => (s, Some AlreadyExists)
  | None =>
      (mkOperations (provisioningOperations s) (deprovisioningOperations s)
                    (<[id := operation]> (upgradeKymaOperations s)),
       None)
  end.

Definition GetUpgradeKymaOperationByID (s : operations) (operationID : string)
    : result UpgradeKymaOperation :=
  match upgradeKymaOperations s !! operationID with
  | None => Err NotFound
  | Some op => Ok op
  end.

Definition UpdateUpgradeKymaOperation (s : operations)
    (op : UpgradeKymaOperation) : operations * result UpgradeKymaOperation :=
  match upgradeKymaOperations s !! ID (uOperation op) with
  | None => (s, Err NotFound)
  | Some oldOp =>
      if bool_decide (Version (uOperation oldOp) ≠ Version (uOperation op))
      then (s, Err Conflict)
      else
        let op := mkUpgradeKyma
                    (withVersion (int_add (Version (uOperation op)) 1)
                                 (uOperation op))
                    (uData op) in
        (mkOperations (provisioningOperations s) (deprovisioningOperations s)
                      (<[ID (uOperation op) := op]> (upgradeKymaOperations s)),
         Ok op)
  end.

(** [GetOperationByID]: [res] starts as [nil] and is overwritten by each kind
    that holds the id, in the order of the three [if exists] blocks. *)
Definition GetOperationByID (s : operations) (operationID : string)
    : result Operation :=
  let res : option Operation := None in
  let res := match provisioningOperations s !! operationID with
             | Some provisionOp => Some (pOperation provisionOp)
             | None => res
             end in
  let res := match deprovisioningOperations s !! operationID with
             | Some deprovisionOp => Some (dOperation deprovisionOp)
             | None => res
             end in
  let res := match upgradeKymaOperations s !! operationID with
             | Some upgradeKymaOp => Some (uOperation upgradeKymaOp)
             | None => res
             end in
  match res with
  | None => Err NotFound
  | Some r => Ok r
  end.

(** One of the three nested loops of [GetOperationsForIDs]: for every id of
    the list, range over the whole map and append the cores whose [ID] is
    that id. *)
Definition collectForIDs {A} (core : A → Operation) (m : gmap string A)
    (opIdList : list string) (ops : list Operation) : list Operation :=
  foldl (λ ops opID,
           foldl (λ ops op,
                    if bool_decide (ID (core op) = opID)
                    then ops ++ [core op] else ops)
                 ops (range_values m))
        ops opIdList.

Definition GetOperationsForIDs (s : operations) (opIdList : list string)
    : result (list Operation) :=
  let ops := [] in
  let ops := collectForIDs uOperation (upgradeKymaOperations s) opIdList ops in
  let ops := collectForIDs pOperation (provisioningOperations s) opIdList ops in
  let ops := collectForIDs dOperation (deprovisioningOperations s) opIdList ops in
  if bool_decide (len ops = 0%Z) then Err NotFound else Ok ops.

(** [GetOperationStatsForOrchestration]: the parameter is not read. *)
Definition GetOperationStatsForOrchestration (s : operations)
    (orchestrationID : string) : gmap string Z :=
  let result : gmap string Z :=
    <[InProgress := 0%Z]> (<[Succeeded := 0%Z]> (<[Failed := 0%Z]> ∅)) in
  foldl (λ result op,
           <[State (uOperation op) :=
               int_add (default 0%Z (result !! State (uOperation op))) 1]>
             result)
        result (range_values (upgradeKymaOperations s)).

(** [sort.Slice(xs, less)]: the result is a permutation of [xs] without an
    inversion; which one among equals Go does not promise.  The embedding
    inserts from the right, before the first element that is not [less]. *)
Fixpoint sort_insert {A} (less : A → A → bool) (x : A) (xs : list A) : list A :=
  match xs with
  | [] => [x]
  | y :: ys => if less y x then y :: sort_insert less x ys else x :: y :: ys
  end.

Definition sort_Slice {A} (less : A → A → bool) (xs : list A) : list A :=
  foldr (sort_insert less) [] xs.

Definition getUpgradeSortedByCreatedAt
    (operations : gmap string UpgradeKymaOperation)
    : list UpgradeKymaOperation :=
  let operationsList := range_values operations in
  sort_Slice (λ a b, Before (CreatedAt (uOperation a))
                            (CreatedAt (uOperation b)))
             operationsList.

(** Modelled from the spec: [pagination.ConvertPageAndPageSizeToOffset]
    (package common/pagination) is not among the sources.  The spec's
    [List(filter, page, pageSize)] numbers pages from 1: the first page
    starts at offset 0 and page [p] at [p*pageSize - pageSize]. *)
Definition ConvertPageAndPageSizeToOffset (pageSize page : Z) : Z :=
  if (page <? 2)%Z then 0%Z
  else int_sub (int_mul page pageSize) pageSize.

(** What a call does: it returns, or it panics on a slice index out of
    range.  [OutOfFuel] belongs to the embedding of the [for] loop only. *)
Inductive run (A : Type) :=
| Returns (a : A)
| Panics
| OutOfFuel.
Arguments Returns {A} a.
Arguments Panics {A}.
Arguments OutOfFuel {A}.

(** The paging loop
    [for i := offset; i < offset+pageSize && i < len(sorted)+offset; i++]
    whose body appends [s.upgradeKymaOperations[sorted[i].OrchestrationID]]. *)
Fixpoint pageLoop (fuel : nat) (s : operations)
    (sortedOperations : list UpgradeKymaOperation) (offset pageSize i : Z)
    (result : list UpgradeKymaOperation) : run (list UpgradeKymaOperation) :=
  match fuel with
  | O => OutOfFuel
  | S fuel =>
      if (i <? int_add offset pageSize)%Z
         && (i <? int_add (len sortedOperations) offset)%Z
      then
        match index sortedOperations i with
        | None => Panics
        | Some o =>
            let key := OrchestrationID (uOperation o) in
            let item := default zeroUpgradeKymaOperation
                                (upgradeKymaOperations s !! key) in
            pageLoop fuel s sortedOperations offset pageSize (int_add i 1)
                     (result ++ [item])
        end
      else Returns result
  end.

(** The body after the lock, from a given offset.  The first loop builds the
    list of the operations of the orchestration; line 303 then replaces it by
    an empty slice. *)
Definition listByOrchestrationIDFrom (s : operations)
    (orchestrationID : string) (offset pageSize : Z)
    : run (list UpgradeKymaOperation * Z * Z) :=
  let result :=
    filter (λ op, OrchestrationID (uOperation op) = orchestrationID)
           (range_values (upgradeKymaOperations s)) in
  let sortedOperations :=
    getUpgradeSortedByCreatedAt (upgradeKymaOperations s) in
  let result : list UpgradeKymaOperation := [] in
  match pageLoop (S (length sortedOperations)) s sortedOperations
                 offset pageSize offset result with
  | Returns result =>
      Returns (result, len result,
               len (range_values (upgradeKymaOperations s)))
  | Panics => Panics
  | OutOfFuel => OutOfFuel
  end.

Definition ListUpgradeKymaOperationsByOrchestrationID (s : operations)
    (orchestrationID : string) (pageSize page : Z)
    : run (list UpgradeKymaOperation * Z * Z) :=
  listByOrchestrationIDFrom s orchestrationID
    (ConvertPageAndPageSizeToOffset pageSize page) pageSize.

(** [ListUpgradeKymaOperationsByInstanceID]: the filtered list is built and
    dropped; the sorted list of the whole map is returned. *)
Definition ListUpgradeKymaOperationsByInstanceID (s : operations)
    (instanceID : string) : list UpgradeKymaOperation :=
  let result :=
    filter (λ op, InstanceID (uOperation op) = instanceID)
           (range_values (upgradeKymaOperations s)) in
  let sortedOperations :=
    getUpgradeSortedByCreatedAt (upgradeKymaOperations s) in
  let result : list UpgradeKymaOperation := [] in
  sortedOperations.

(** ** package memory: the remaining methods *)

(** [Get...OperationByInstanceID]: the loop returns at the first operation,
    in iteration order, whose [InstanceID] is the given one. *)
Definition GetProvisioningOperationByInstanceID (s : operations)
    (instanceID : string) : result ProvisioningOperation :=
  match list_find (λ op, InstanceID (pOperation op) = instanceID)
                  (range_values (provisioningOperations s)) with
  | Some (_, op) => Ok op
  | None => Err NotFound
  end.

Definition GetDeprovisioningOperationByInstanceID (s : operations)
    (instanceID : string) : result DeprovisioningOperation :=
  match list_find (λ op, InstanceID (dOperation op) = instanceID)
                  (range_values (deprovisioningOperations s)) with
  | Some (_, op) => Ok op
  | None => Err NotFound
  end.

Definition GetUpgradeKymaOperationByInstanceID (s : operations)
    (instanceID : string) : result UpgradeKymaOperation :=
  match list_find (λ op, InstanceID (uOperation op) = instanceID)
                  (range_values (upgradeKymaOperations s)) with
  | Some (_, op) => Ok op
  | None => Err NotFound
  end.

(** [dbmodel.OperationType]: the two values the [switch] of
    [GetOperationsInProgressByType] names, and any other value. *)
Inductive OperationType :=
| OperationTypeProvision
| OperationTypeDeprovision
| OperationTypeOther (name : string).

Definition GetOperationsInProgressByType (s : operations)
    (opType : OperationType) : result (list Operation) :=
  let ops : list Operation := [] in
  let ops :=
    match opType with
    | OperationTypeProvision =>
        foldl (λ ops op,
                 if bool_decide (State (pOperation op) = InProgress)
                 then ops ++ [pOperation op] else ops)
              ops (range_values (provisioningOperations s))
    | OperationTypeDeprovision =>
        foldl (λ ops op,
                 if bool_decide (State (dOperation op) = InProgress)
                 then ops ++ [dOperation op] else ops)
              ops (range_values (deprovisioningOperations s))
    | OperationTypeOther _ => ops
    end in
  Ok ops.

(** [internal.OperationStats], with the two maps [GetOperationStats] fills. *)
Record OperationStats := mkOperationStats {
  Provisioning : gmap string Z;
  Deprovisioning : gmap string Z
}.

Definition GetOperationStats (s : operations) : OperationStats :=
  let result :=
    mkOperationStats
      (<[InProgress := 0%Z]> (<[Succeeded := 0%Z]> (<[Failed := 0%Z]> ∅)))
      (<[InProgress := 0%Z]> (<[Succeeded := 0%Z]> (<[Failed := 0%Z]> ∅))) in
  let result :=
    foldl (λ result op,
             mkOperationStats
               (<[State (pOperation op) :=
                    int_add (default 0%Z (Provisioning result
                                            !! State (pOperation op))) 1]>
                  (Provisioning result))
               (Deprovisioning result))
          result (range_values (provisioningOperations s)) in
  let result :=
    foldl (λ result op,
             mkOperationStats
               (Provisioning result)
               (<[State (dOperation op) :=
                    int_add (default 0%Z (Deprovisioning result
                                            !! State (dOperation op))) 1]>
                  (Deprovisioning result)))
          result (range_values (deprovisioningOperations s)) in
  result.

(** ** package command: the runtime target options of the CLI *)

Definition targetAccount : string := "account".
Definition targetSubaccount : string := "subaccount".
Definition targetRuntimeID : string := "runtime-id".
Definition targetRegion : string := "region".

(** [internal.TargetAll], the literal [all] of the flag's help text. *)
Definition TargetAll : string := "all".

(** [internal.RuntimeTarget] and [internal.TargetSpec], with the fields the
    parser assigns. *)
Record RuntimeTarget := mkRuntimeTarget {
  Target : string;
  GlobalAccount : string;
  SubAccount : string;
  Region : string;
  RuntimeID : string
}.

Record TargetSpec := mkTargetSpec {
  Include : list RuntimeTarget;
  Exclude : list RuntimeTarget
}.

(** The errors of [errors.New] and [fmt.Errorf], one constructor per message
    with the values formatted into it. *)
Inductive error :=
| ErrNoTarget                                     (* at least one runtime target must be specified with --target *)
| ErrAllWithExclude                               (* "all" cannot be used with --target-exclude *)
| ErrMissingValue (flagName selectorKey : string) (* %s %s is missing required value *)
| ErrInvalidSelector (flagName selectorKey : string). (* invalid selector: %s %s *)

(** [strings.Split(s, sep)] for a separator of one byte, as at both call
    sites ([","] and ["="]): the pieces between the separators, in order;
    a string without separator, the empty one too, gives one piece. *)
Fixpoint Split (s : string) (sep : Ascii.ascii) : list string :=
  match s with
  | EmptyString => [EmptyString]
  | String c rest =>
      if Ascii.eqb c sep then EmptyString :: Split rest sep
      else match Split rest sep with
           | [] => [String c EmptyString]
           | piece :: pieces => String c piece :: pieces
           end
  end.

Definition checkRuntimeTargetSelector (selectorKey selectorValue flagName : string)
    : option error :=
  if String.eqb selectorValue "" then Some (ErrMissingValue flagName selectorKey)
  else None.

(** [sv[0]] and the value [sv[1]] when [len(sv) > 1], else [""]. *)
Definition selectorKeyOf (selector : string) : string :=
  default "" (Split selector "="%char !! 0).

Definition selectorValueOf (selector : string) : string :=
  let sv := Split selector "="%char in
  if (1 <? len sv)%Z then default "" (sv !! 1) else "".

(** The body of the loop over the selectors: the [switch] on the key. *)
Definition parseSelector (include : bool) (flagName : string)
    (target : RuntimeTarget) (selector : string) : error + RuntimeTarget :=
  let selectorKey := selectorKeyOf selector in
  let selectorValue := selectorValueOf selector in
  if String.eqb selectorKey TargetAll then
    if negb include then inl ErrAllWithExclude
    else inr (mkRuntimeTarget TargetAll (GlobalAccount target)
                (SubAccount target) (Region target) (RuntimeID target))
  else if String.eqb selectorKey targetAccount then
    match checkRuntimeTargetSelector selectorKey selectorValue flagName with
    | Some err => inl err
    | None => inr (mkRuntimeTarget (Target target) selectorValue
                     (SubAccount target) (Region target) (RuntimeID target))
    end
  else if String.eqb selectorKey targetSubaccount then
    match checkRuntimeTargetSelector selectorKey selectorValue flagName with
    | Some err => inl err
    | None => inr (mkRuntimeTarget (Target target) (GlobalAccount target)
                     selectorValue (Region target) (RuntimeID target))
    end
  else if String.eqb selectorKey targetRegion then
    match checkRuntimeTargetSelector selectorKey selectorValue flagName with
    | Some err => inl err
    | None => inr (mkRuntimeTarget (Target target) (GlobalAccount target)
                     (SubAccount target) selectorValue (RuntimeID target))
    end
  else if String.eqb selectorKey targetRuntimeID then
    match checkRuntimeTargetSelector selectorKey selectorValue flagName with
    | Some err => inl err
    | None => inr (mkRuntimeTarget (Target target) (GlobalAccount target)
                     (SubAccount target) (Region target) selectorValue)
    end
  else inl (ErrInvalidSelector flagName selectorKey).

(** [for _, selector := range selectors], leaving at the first error. *)
Fixpoint parseSelectors (include : bool) (flagName : string)
    (selectors : list string) (target : RuntimeTarget) : error + RuntimeTarget :=
  match selectors with
  | [] => inr target
  | selector :: selectors =>
      match parseSelector include flagName target selector with
      | inl err => inl err
      | inr target => parseSelectors include flagName selectors target
      end
  end.

(** [parseRuntimeTarget]: [*targets] is appended to on success only. *)
Definition parseRuntimeTarget (targetInput : string)
    (targets : list RuntimeTarget) (include : bool)
    : list RuntimeTarget * option error :=
  let target := mkRuntimeTarget "" "" "" "" "" in
  let selectors := Split targetInput ","%char in
  let flagName : string := if include then "--target" else "--target-exclude" in
  match parseSelectors include flagName selectors target with
  | inl err => (targets, Some err)
  | inr target => (targets ++ [target], None)
  end.

(** One of the two loops of [ValidateTransformRuntimeTargetOpts]. *)
Fixpoint parseRuntimeTargets (inputs : list string)
    (targets : list RuntimeTarget) (include : bool)
    : list RuntimeTarget * option error :=
  match inputs with
  | [] => (targets, None)
  | target :: inputs =>
      match parseRuntimeTarget target targets include with
      | (targets, Some err) => (targets, Some err)
      | (targets, None) => parseRuntimeTargets inputs targets include
      end
  end.

(** [ValidateTransformRuntimeTargetOpts]: [targetSpec] is written through
    the pointer, so what was appended before an error stays. *)
Definition ValidateTransformRuntimeTargetOpts
    (targetInputs targetExcludeInputs : list string) (targetSpec : TargetSpec)
    : TargetSpec * option error :=
  if bool_decide (len targetInputs = 0%Z) then (targetSpec, Some ErrNoTarget)
  else
    match parseRuntimeTargets targetInputs (Include targetSpec) true with
    | (include, Some err) => (mkTargetSpec include (Exclude targetSpec), Some err)
    | (include, None) =>
        match parseRuntimeTargets targetExcludeInputs (Exclude targetSpec) false with
        | (exclude, err) => (mkTargetSpec include exclude, err)
        end
    end.

(** ** package command: the global options *)

(** [GlobalOptionsKey] and the fixed keys [GlobalOpts]. *)
Record GlobalOptionsKey := mkGlobalOptionsKey {
  oidcIssuerURL : string;
  oidcClientID : string;
  oidcClientSecret : string;
  kebAPIURL : string;
  kubeconfigAPIURL : string;
  gardenerKubeconfig : string
}.

Definition GlobalOpts : GlobalOptionsKey :=
  mkGlobalOptionsKey "oidc-issuer-url" "oidc-client-id" "oidc-client-secret"
                     "keb-api-url" "kubeconfig-api-url" "gardener-kubeconfig".

(** The configuration [viper] holds, by key; [viper.GetString] gives the
    empty string for a key that is not set. *)
Definition GetString (viper : gmap string string) (key : string) : string :=
  default "" (viper !! key).

(** [strings.Join(elems, sep)] *)
Fixpoint Join (elems : list string) (sep : string) : string :=
  match elems with
  | [] => ""
  | [e] => e
  | e :: rest => e +:+ sep +:+ Join rest sep
  end.

(** [ValidateGlobalOpts]: [None] is [nil], [Some msg] the error with its
    message. *)
Definition ValidateGlobalOpts (viper : gmap string string) : option string :=
  let reqGlobalOpts := [oidcIssuerURL GlobalOpts; oidcClientID GlobalOpts;
                        oidcClientSecret GlobalOpts; kebAPIURL GlobalOpts] in
  let missingGlobalOpts :=
    foldl (λ missingGlobalOpts opt,
             if String.eqb (GetString viper opt) ""
             then missingGlobalOpts ++ [opt] else missingGlobalOpts)
          [] reqGlobalOpts in
  if bool_decide (len missingGlobalOpts = 0%Z) then None
  else Some ("missing required options: " +:+ Join missingGlobalOpts ", "
             +:+ ". See kcp --help for more information").

Definition KubeconfigAPIURL (keys : GlobalOptionsKey) (viper : gmap string string) :=
  GetString viper (kubeconfigAPIURL keys).
Definition GardenerKubeconfig (keys : GlobalOptionsKey) (viper : gmap string string) :=
  GetString viper (gardenerKubeconfig keys).

(** ** package runtime: the converter ([internal/runtime/converter.go])

    [pkg] is [common/runtime]; its types are not among the sources, the
    records list the fields the converter assigns.  A [*string] is an
    address: the converter stores [&source.OrchestrationID], a pointer into
    the operation it reads, so operations live in a memory of cells. *)

Module pkg.

Record Operation := mkOperation {
  OperationID : string;
  CreatedAt : Z;
  State : string;
  Description : string;
  OrchestrationID : option positive
}.

Record OperationsData := mkOperationsData {
  Data : list Operation;
  TotalCount : Z;
  Count : Z
}.

(** [RuntimeStatus]; its [CreatedAt] is [StatusCreatedAt] here.
    [Provisioning] and [Deprovisioning] are [*Operation]: [None] is [nil]. *)
Record RuntimeStatus := mkRuntimeStatus {
  StatusCreatedAt : Z;
  ModifiedAt : Z;
  Provisioning : option Operation;
  Deprovisioning : option Operation;
  UpgradingKyma : OperationsData
}.

Record RuntimeDTO := mkRuntimeDTO {
  InstanceID : string;
  RuntimeID : string;
  GlobalAccountID : string;
  SubAccountID : string;
  SubAccountRegion : string;
  ServiceClassID : string;
  ServiceClassName : string;
  ServicePlanID : string;
  ServicePlanName : string;
  ProviderRegion : string;
  ShootName : string;
  Status : RuntimeStatus
}.

End pkg.

(** [internal.Instance], with the fields [NewDTO] reads. *)
Module inst.

Record Instance := mkInstance {
  InstanceID : string;
  RuntimeID : string;
  GlobalAccountID : string;
  SubAccountID : string;
  ServiceID : string;
  ServiceName : string;
  ServicePlanID : string;
  ServicePlanName : string;
  ProviderRegion : string;
  DashboardURL : string;
  CreatedAt : Z;
  UpdatedAt : Z
}.

End inst.

(** [internal.ProvisioningParameters], of which [PlatformRegion] is read. *)
Record ProvisioningParameters := mkProvisioningParameters {
  PlatformRegion : string
}.

(** An error, possibly wrapped by [errors.Wrap(err, msg)]. *)
Inductive wrapped (E : Type) :=
| Cause (e : E)
| Wrap (msg : string) (err : wrapped E).
Arguments Cause {E} e.
Arguments Wrap {E} msg err.

Record converter := mkConverter {
  defaultSubaccountRegion : string
}.

Definition newConverter (platformRegion : string) : converter :=
  mkConverter platformRegion.

Definition zeroPkgOperation : pkg.Operation := pkg.mkOperation "" 0 "" "" None.

Definition zeroRuntimeDTO : pkg.RuntimeDTO :=
  pkg.mkRuntimeDTO "" "" "" "" "" "" "" "" "" "" ""
    (pkg.mkRuntimeStatus 0 0 None None (pkg.mkOperationsData [] 0 0)).

(** Field assignments on a DTO. *)
Definition setSubAccountRegion (v : string) (d : pkg.RuntimeDTO) : pkg.RuntimeDTO :=
  pkg.mkRuntimeDTO (pkg.InstanceID d) (pkg.RuntimeID d) (pkg.GlobalAccountID d)
    (pkg.SubAccountID d) v (pkg.ServiceClassID d) (pkg.ServiceClassName d)
    (pkg.ServicePlanID d) (pkg.ServicePlanName d) (pkg.ProviderRegion d)
    (pkg.ShootName d) (pkg.Status d).

Definition setShootName (v : string) (d : pkg.RuntimeDTO) : pkg.RuntimeDTO :=
  pkg.mkRuntimeDTO (pkg.InstanceID d) (pkg.RuntimeID d) (pkg.GlobalAccountID d)
    (pkg.SubAccountID d) (pkg.SubAccountRegion d) (pkg.ServiceClassID d)
    (pkg.ServiceClassName d) (pkg.ServicePlanID d) (pkg.ServicePlanName d)
    (pkg.ProviderRegion d) v (pkg.Status d).

Definition setStatus (v : pkg.RuntimeStatus) (d : pkg.RuntimeDTO) : pkg.RuntimeDTO :=
  pkg.mkRuntimeDTO (pkg.InstanceID d) (pkg.RuntimeID d) (pkg.GlobalAccountID d)
    (pkg.SubAccountID d) (pkg.SubAccountRegion d) (pkg.ServiceClassID d)
    (pkg.ServiceClassName d) (pkg.ServicePlanID d) (pkg.ServicePlanName d)
    (pkg.ProviderRegion d) (pkg.ShootName d) v.

Definition setProvisioning (v : option pkg.Operation) (st : pkg.RuntimeStatus)
    : pkg.RuntimeStatus :=
  pkg.mkRuntimeStatus (pkg.StatusCreatedAt st) (pkg.ModifiedAt st) v
    (pkg.Deprovisioning st) (pkg.UpgradingKyma st).

Definition setDeprovisioning (v : option pkg.Operation) (st : pkg.RuntimeStatus)
    : pkg.RuntimeStatus :=
  pkg.mkRuntimeStatus (pkg.StatusCreatedAt st) (pkg.ModifiedAt st)
    (pkg.Provisioning st) v (pkg.UpgradingKyma st).

Definition setUpgradingKyma (v : pkg.OperationsData) (st : pkg.RuntimeStatus)
    : pkg.RuntimeStatus :=
  pkg.mkRuntimeStatus (pkg.StatusCreatedAt st) (pkg.ModifiedAt st)
    (pkg.Provisioning st) (pkg.Deprovisioning st) v.

(** The body of [applyOperation] for a source at address [source] and a
    target that is not [nil]: four fields are copied, and the target's
    [OrchestrationID] is pointed at the source's field when that field is
    not empty -- and left as it was when it is. *)
Definition copyOperation (mem : gmap positive Operation) (source : positive)
    (target : pkg.Operation) : pkg.Operation :=
  let src := default zeroOperation (mem !! source) in
  pkg.mkOperation (ID src) (CreatedAt src) (State src) (Description src)
    (if negb (String.eqb (OrchestrationID src) "") then Some source
     else pkg.OrchestrationID target).

(** [applyOperation(source, target)]: nothing for a [nil] source; a [nil]
    target is dereferenced by the first assignment, which panics. *)
Definition applyOperation (mem : gmap positive Operation)
    (source : option positive) (target : option pkg.Operation)
    : run (option pkg.Operation) :=
  match source with
  | None => Returns target
  | Some source =>
      match target with
      | None => Panics
      | Some target => Returns (Some (copyOperation mem source target))
      end
  end.

(** [ApplyProvisioningOperation(dto, pOpr)]: [pOpr] is the address of the
    operation's core, [None] for [nil]. *)
Definition ApplyProvisioningOperation (mem : gmap positive Operation)
    (dto : pkg.RuntimeDTO) (pOpr : option positive) : run pkg.RuntimeDTO :=
  match pOpr with
  | None => Returns dto
  | Some _ =>
      match applyOperation mem pOpr (pkg.Provisioning (pkg.Status dto)) with
      | Returns target => Returns (setStatus (setProvisioning target (pkg.Status dto)) dto)
      | Panics => Panics
      | OutOfFuel => OutOfFuel
      end
  end.

(** [ApplyDeprovisioningOperation(dto, dOpr)]: the target is a fresh
    [&pkg.Operation{}]. *)
Definition ApplyDeprovisioningOperation (mem : gmap positive Operation)
    (dto : pkg.RuntimeDTO) (dOpr : option positive) : run pkg.RuntimeDTO :=
  match dOpr with
  | None => Returns dto
  | Some _ =>
      let dto := setStatus (setDeprovisioning (Some zeroPkgOperation)
                                              (pkg.Status dto)) dto in
      match applyOperation mem dOpr (pkg.Deprovisioning (pkg.Status dto)) with
      | Returns target => Returns (setStatus (setDeprovisioning target (pkg.Status dto)) dto)
      | Panics => Panics
      | OutOfFuel => OutOfFuel
      end
  end.

(** [ApplyUpgradingKymaOperations].  The range variable [o] is one variable
    for the whole loop (the sources predate per-iteration loop variables and
    are vendored with dep, without a go.mod asking for them): it is a fresh
    cell, each iteration copies the next element into it, and
    [applyOperation(&o.Operation, &op)] is [copyOperation] on that cell.
    The memory after the call is returned with the DTO. *)
Definition ApplyUpgradingKymaOperations (mem : gmap positive Operation)
    (dto : pkg.RuntimeDTO) (oprs : list UpgradeKymaOperation) (totalCount : Z)
    : gmap positive Operation * pkg.RuntimeDTO :=
  let data := pkg.mkOperationsData [] totalCount (len oprs) in
  let o : positive := fresh (dom mem) in
  let '(mem, data) :=
    foldl (λ '(mem, data) opr,
             let mem := <[o := uOperation opr]> mem in
             let op := copyOperation mem o zeroPkgOperation in
             (mem, pkg.mkOperationsData (pkg.Data data ++ [op])
                     (pkg.TotalCount data) (pkg.Count data)))
          (mem, data) oprs in
  (mem, setStatus (setUpgradingKyma data (pkg.Status dto)) dto).

(** What a reader of the DTO sees behind an [OrchestrationID] pointer. *)
Definition readOrchestrationID (mem : gmap positive Operation)
    (op : pkg.Operation) : option string :=
  match pkg.OrchestrationID op with
  | None => None
  | Some l => Some (OrchestrationID (default zeroOperation (mem !! l)))
  end.

Section NewDTO.

(** [instance.GetProvisioningParameters()] is not among the sources: it is a
    parameter, with the type of its errors. *)
Context {E : Type}.
Variable GetProvisioningParameters : inst.Instance → E + ProvisioningParameters.

Definition setRegionOrDefault (c : converter) (instance : inst.Instance)
    (runtime : pkg.RuntimeDTO) : pkg.RuntimeDTO * option (wrapped E) :=
  match GetProvisioningParameters instance with
  | inl err => (runtime, Some (Wrap "while getting provisioning parameters" (Cause err)))
  | inr pp =>
      if String.eqb (PlatformRegion pp) ""
      then (setSubAccountRegion (defaultSubaccountRegion c) runtime, None)
      else (setSubAccountRegion (PlatformRegion pp) runtime, None)
  end.

Definition NewDTO (c : converter) (instance : inst.Instance)
    : pkg.RuntimeDTO * option (wrapped E) :=
  let toReturn :=
    pkg.mkRuntimeDTO (inst.InstanceID instance) (inst.RuntimeID instance)
      (inst.GlobalAccountID instance) (inst.SubAccountID instance) ""
      (inst.ServiceID instance) (inst.ServiceName instance)
      (inst.ServicePlanID instance) (inst.ServicePlanName instance)
      (inst.ProviderRegion instance) ""
      (pkg.mkRuntimeStatus (inst.CreatedAt instance) (inst.UpdatedAt instance)
         (Some zeroPkgOperation) None (pkg.mkOperationsData [] 0 0)) in
  match setRegionOrDefault c instance toReturn with
  | (_, Some err) => (zeroRuntimeDTO, Some (Wrap "while setting region" err))
  | (toReturn, None) =>
      let urlSplitted := Split (inst.DashboardURL instance) "."%char in
      let toReturn :=
        if (1 <? len urlSplitted)%Z
        then setShootName (default "" (urlSplitted !! 1)) toReturn
        else toReturn in
      (toReturn, None)
  end.

End NewDTO.

(** ** Sample values for the examples

    One id, [op-1], is held by all three kinds: each insert looks at the map
    of its own kind only. *)

Definition sampleP : ProvisioningOperation :=
  mkProvisioning (mkOperation "op-1" 0 5 "inst-1" Succeeded "" "") "p".
Definition sampleD : DeprovisioningOperation :=
  mkDeprovisioning (mkOperation "op-1" 0 7 "inst-1" InProgress "" "") "d".
Definition sampleU1 : UpgradeKymaOperation :=
  mkUpgradeKyma (mkOperation "op-1" 3 1 "inst-1" InProgress "" "orch-1") "u1".
Definition sampleU2 : UpgradeKymaOperation :=
  mkUpgradeKyma (mkOperation "op-2" 0 2 "inst-2" Succeeded "" "orch-2") "u2".
Definition sampleP3 : ProvisioningOperation :=
  mkProvisioning (mkOperation "op-3" 0 9 "inst-3" Failed "" "") "p3".

Definition sampleStore : operations :=
  let s := NewOperation in
  let s := (InsertProvisioningOperation s sampleP).1 in
  let s := (InsertProvisioningOperation s sampleP3).1 in
  let s := (InsertDeprovisioningOperation s sampleD).1 in
  let s := (InsertUpgradeKymaOperation s sampleU1).1 in
  (InsertUpgradeKymaOperation s sampleU2).1.

Definition sampleInstance : inst.Instance :=
  inst.mkInstance "i-1" "r-1" "ga" "sa" "svc" "kyma" "plan" "azure" "westeurope"
    "https://console.c-1a2b3c.kyma.example.com" 10 20.

(** Two stand-ins for [GetProvisioningParameters]: one that succeeds without
    a platform region, one that fails. *)
Definition sampleGetParameters (instance : inst.Instance)
    : string + ProvisioningParameters :=
  inr (mkProvisioningParameters "").
Definition sampleGetParametersFails (instance : inst.Instance)
    : string + ProvisioningParameters :=
  inl "unexpected end of JSON input".

(** A memory with two operations: the first belongs to an orchestration,
    the second does not. *)
Definition sampleMem : gmap positive Operation :=
  <[1%positive := mkOperation "op-a" 0 1 "inst-1" Succeeded "done" "orch-1"]>
    (<[2%positive := mkOperation "op-b" 0 2 "inst-1" InProgress "" ""]> ∅).

(** ** Definitions used to state the properties *)

(** The value a successful update stores and returns: the given value with
    [Version] replaced by [Version + 1]. *)
Definition bumpedP (op : ProvisioningOperation) : ProvisioningOperation :=
  mkProvisioning (withVersion (int_add (Version (pOperation op)) 1) (pOperation op))
                 (pData op).
Definition bumpedD (op : DeprovisioningOperation) : DeprovisioningOperation :=
  mkDeprovisioning (withVersion (int_add (Version (dOperation op)) 1) (dOperation op))
                   (dData op).
Definition bumpedU (op : UpgradeKymaOperation) : UpgradeKymaOperation :=
  mkUpgradeKyma (withVersion (int_add (Version (uOperation op)) 1) (uOperation op))
                (uData op).

(** Every entry is filed under the [ID] of its value: [NewOperation]
    satisfies it and the inserts and updates, which write
    [m[op.ID] = op], keep it. *)
Definition keyedByID (s : operations) : Prop :=
  (∀ k p, provisioningOperations s !! k = Some p → ID (pOperation p) = k)
  ∧ (∀ k d, deprovisioningOperations s !! k = Some d → ID (dOperation d) = k)
  ∧ (∀ k u, upgradeKymaOperations s !! k = Some u → ID (uOperation u) = k).

(** The stores the methods can build. *)
Inductive reachable : operations → Prop :=
| reach_new : reachable NewOperation
| reach_insertP s op :
    reachable s → reachable (InsertProvisioningOperation s op).1
| reach_insertD s op :
    reachable s → reachable (InsertDeprovisioningOperation s op).1
| reach_insertU s op :
    reachable s → reachable (InsertUpgradeKymaOperation s op).1
| reach_updateP s op :
    reachable s → reachable (UpdateProvisioningOperation s op).1
| reach_updateD s op :
    reachable s → reachable (UpdateDeprovisioningOperation s op).1
| reach_updateU s op :
    reachable s → reachable (UpdateUpgradeKymaOperation s op).1.

(** [a] is created no later than [b]. *)
Definition createdNoLater (a b : UpgradeKymaOperation) : Prop :=
  (CreatedAt (uOperation a) ≤ CreatedAt (uOperation b))%Z.

(** The cores of the operations a map holds for the ids of a list, in the
    order of the list. *)
Definition foundFor {A} (core : A → Operation) (m : gmap string A)
    (opIdList : list string) : list Operation :=
  omap (λ id, core <$> m !! id) opIdList.

(** A selector the parser takes: [all] in an include specifier, or one of
    the four keys with a value that is not empty. *)
Definition selectorAccepted (include : bool) (selector : string) : Prop :=
  (selectorKeyOf selector = TargetAll ∧ include = true)
  ∨ (selectorKeyOf selector
       ∈ [targetAccount; targetSubaccount; targetRegion; targetRuntimeID]
     ∧ selectorValueOf selector ≠ "").

(** [parseRuntimeTarget] returned [nil] for this specifier. *)
Definition targetParses (include : bool) (targetInput : string) : Prop :=
  (parseRuntimeTarget targetInput [] include).2 = None.

(** The number of operations of a map that are in a given state. *)
Definition inState {A} (core : A → Operation) (m : gmap string A)
    (st : string) : Z :=
  len (filter (λ op, State (core op) = st) (range_values m)).

(** The three states every statistics map starts with. *)
Definition baseStates : list string := [InProgress; Succeeded; Failed].

(** [o] is the core of an operation some map of the store holds. *)
Definition storedCore (s : operations) (o : Operation) : Prop :=
  (∃ k u, upgradeKymaOperations s !! k = Some u ∧ uOperation u = o)
  ∨ (∃ k p, provisioningOperations s !! k = Some p ∧ pOperation p = o)
  ∨ (∃ k d, deprovisioningOperations s !! k = Some d ∧ dOperation d = o).

(** What the paging loop appends for the sorted operation [o]: the entry
    of the map under [o]'s orchestration id, the zero value without one. *)
Definition pageItem (s : operations) (o : UpgradeKymaOperation)
    : UpgradeKymaOperation :=
  default zeroUpgradeKymaOperation
          (upgradeKymaOperations s !! OrchestrationID (uOperation o)).

(** The [count] sorted operations from position [from] on, as appended. *)
Definition pageItems (s : operations) (from count : Z)
    : list UpgradeKymaOperation :=
  pageItem s <$> take (Z.to_nat count)
                      (drop (Z.to_nat from)
                            (getUpgradeSortedByCreatedAt (upgradeKymaOperations s))).

(** The byte [sep] does not occur in [s]. *)
Fixpoint free (sep : Ascii.ascii) (s : string) : Prop :=
  match s with
  | EmptyString => True
  | String c rest => c ≠ sep ∧ free sep rest
  end.


(** The DTO entry the loop of [ApplyUpgradingKymaOperations] appends for
    the operation [opr] when the range variable lives at [o]. *)
Definition entryFor (o : positive) (opr : UpgradeKymaOperation) : pkg.Operation :=
  pkg.mkOperation (ID (uOperation opr)) (CreatedAt (uOperation opr))
    (State (uOperation opr)) (Description (uOperation opr))
    (if negb (String.eqb (OrchestrationID (uOperation opr)) "") then Some o
     else None).

(** * Part II: properties *)

(** ** Go's [int] *)

Lemma int_wrap_range z : int_range (int_wrap z).
Proof.
  unfold int_range, int_wrap, min_int, max_int.
  pose proof (Z.mod_pos_bound (z + 2 ^ 63) (2 ^ 64)) as Hb. lia.
Qed.

Lemma int_wrap_id z : int_range z → int_wrap z = z.
Proof.
  unfold int_range, int_wrap, min_int, max_int. intros Hz.
  rewrite Z.mod_small; lia.
Qed.

Lemma int_add_exact a b : int_range (a + b) → int_add a b = (a + b)%Z.
Proof. apply int_wrap_id. Qed.

(** [v + 1] is never [v] again, overflow or not. *)
Lemma int_add_1_neq v : int_add v 1 ≠ v.
Proof.
  unfold int_add, int_wrap. intros H.
  pose proof (Z.mod_pos_bound (v + 1 + 2 ^ 63) (2 ^ 64)) as Hb.
  pose proof (Z.div_mod (v + 1 + 2 ^ 63) (2 ^ 64)) as Hd.
  lia.
Qed.

Lemma int_succ_exact v : int_range v → v ≠ max_int → int_add v 1 = (v + 1)%Z.
Proof.
  intros Hr Hm. apply int_add_exact.
  unfold int_range, min_int, max_int in *. lia.
Qed.

(** ** Update: compare-and-swap on [Version] *)

Ltac update_stale H Hne :=
  rewrite H; rewrite bool_decide_eq_true_2 by exact Hne; reflexivity.

Ltac update_fresh H Heq :=
  rewrite H; rewrite bool_decide_eq_false_2 by (intros Hc; apply Hc; exact Heq);
  reflexivity.

Lemma UpdateProvisioningOperation_stale s op old :
  provisioningOperations s !! ID (pOperation op) = Some old →
  Version (pOperation old) ≠ Version (pOperation op) →
  UpdateProvisioningOperation s op = (s, Err Conflict).
Proof. intros H Hne. unfold UpdateProvisioningOperation. update_stale H Hne. Qed.

Lemma UpdateProvisioningOperation_fresh s op old :
  provisioningOperations s !! ID (pOperation op) = Some old →
  Version (pOperation old) = Version (pOperation op) →
  UpdateProvisioningOperation s op =
    (mkOperations (<[ID (pOperation op) := bumpedP op]> (provisioningOperations s))
                  (deprovisioningOperations s) (upgradeKymaOperations s),
     Ok (bumpedP op)).
Proof. intros H Heq. unfold UpdateProvisioningOperation. update_fresh H Heq. Qed.

Lemma UpdateDeprovisioningOperation_stale s op old :
  deprovisioningOperations s !! ID (dOperation op) = Some old →
  Version (dOperation old) ≠ Version (dOperation op) →
  UpdateDeprovisioningOperation s op = (s, Err Conflict).
Proof. intros H Hne. unfold UpdateDeprovisioningOperation. update_stale H Hne. Qed.

Lemma UpdateDeprovisioningOperation_fresh s op old :
  deprovisioningOperations s !! ID (dOperation op) = Some old →
  Version (dOperation old) = Version (dOperation op) →
  UpdateDeprovisioningOperation s op =
    (mkOperations (provisioningOperations s)
                  (<[ID (dOperation op) := bumpedD op]> (deprovisioningOperations s))
                  (upgradeKymaOperations s),
     Ok (bumpedD op)).
Proof. intros H Heq. unfold UpdateDeprovisioningOperation. update_fresh H Heq. Qed.

Lemma UpdateUpgradeKymaOperation_stale s op old :
  upgradeKymaOperations s !! ID (uOperation op) = Some old →
  Version (uOperation old) ≠ Version (uOperation op) →
  UpdateUpgradeKymaOperation s op = (s, Err Conflict).
Proof. intros H Hne. unfold UpdateUpgradeKymaOperation. update_stale H Hne. Qed.

Lemma UpdateUpgradeKymaOperation_fresh s op old :
  upgradeKymaOperations s !! ID (uOperation op) = Some old →
  Version (uOperation old) = Version (uOperation op) →
  UpdateUpgradeKymaOperation s op =
    (mkOperations (provisioningOperations s) (deprovisioningOperations s)
                  (<[ID (uOperation op) := bumpedU op]> (upgradeKymaOperations s)),
     Ok (bumpedU op)).
Proof. intros H Heq. unfold UpdateUpgradeKymaOperation. update_fresh H Heq. Qed.

Lemma UpdateProvisioningOperation_cas s op old :
  provisioningOperations s !! ID (pOperation op) = Some old →
  (Version (pOperation old) ≠ Version (pOperation op) →
     UpdateProvisioningOperation s op = (s, Err Conflict))
  ∧ (Version (pOperation old) = Version (pOperation op) →
     ∃ s', UpdateProvisioningOperation s op = (s', Ok (bumpedP op))
       ∧ GetProvisioningOperationByID s' (ID (pOperation op)) = Ok (bumpedP op)
       ∧ Version (pOperation (bumpedP op)) = int_add (Version (pOperation op)) 1
       ∧ ∀ op2, ID (pOperation op2) = ID (pOperation op) →
                Version (pOperation op2) = Version (pOperation op) →
                UpdateProvisioningOperation s' op2 = (s', Err Conflict)).
Proof.
  intros H. split; intros Hv.
  - by eapply UpdateProvisioningOperation_stale.
  - eexists. split; [by eapply UpdateProvisioningOperation_fresh|].
    unfold GetProvisioningOperationByID. simpl. rewrite lookup_insert_eq.
    repeat split. intros op2 Hid Hv2.
    eapply UpdateProvisioningOperation_stale.
    + simpl. rewrite Hid. apply lookup_insert_eq.
    + simpl. rewrite Hv2. apply int_add_1_neq.
Qed.

Lemma UpdateDeprovisioningOperation_cas s op old :
  deprovisioningOperations s !! ID (dOperation op) = Some old →
  (Version (dOperation old) ≠ Version (dOperation op) →
     UpdateDeprovisioningOperation s op = (s, Err Conflict))
  ∧ (Version (dOperation old) = Version (dOperation op) →
     ∃ s', UpdateDeprovisioningOperation s op = (s', Ok (bumpedD op))
       ∧ GetDeprovisioningOperationByID s' (ID (dOperation op)) = Ok (bumpedD op)
       ∧ Version (dOperation (bumpedD op)) = int_add (Version (dOperation op)) 1
       ∧ ∀ op2, ID (dOperation op2) = ID (dOperation op) →
                Version (dOperation op2) = Version (dOperation op) →
                UpdateDeprovisioningOperation s' op2 = (s', Err Conflict)).
Proof.
  intros H. split; intros Hv.
  - by eapply UpdateDeprovisioningOperation_stale.
  - eexists. split; [by eapply UpdateDeprovisioningOperation_fresh|].
    unfold GetDeprovisioningOperationByID. simpl. rewrite lookup_insert_eq.
    repeat split. intros op2 Hid Hv2.
    eapply UpdateDeprovisioningOperation_stale.
    + simpl. rewrite Hid. apply lookup_insert_eq.
    + simpl. rewrite Hv2. apply int_add_1_neq.
Qed.

Lemma UpdateUpgradeKymaOperation_cas s op old :
  upgradeKymaOperations s !! ID (uOperation op) = Some old →
  (Version (uOperation old) ≠ Version (uOperation op) →
     UpdateUpgradeKymaOperation s op = (s, Err Conflict))
  ∧ (Version (uOperation old) = Version (uOperation op) →
     ∃ s', UpdateUpgradeKymaOperation s op = (s', Ok (bumpedU op))
       ∧ GetUpgradeKymaOperationByID s' (ID (uOperation op)) = Ok (bumpedU op)
       ∧ Version (uOperation (bumpedU op)) = int_add (Version (uOperation op)) 1
       ∧ ∀ op2, ID (uOperation op2) = ID (uOperation op) →
                Version (uOperation op2) = Version (uOperation op) →
                UpdateUpgradeKymaOperation s' op2 = (s', Err Conflict)).
Proof.
  intros H. split; intros Hv.
  - by eapply UpdateUpgradeKymaOperation_stale.
  - eexists. split; [by eapply UpdateUpgradeKymaOperation_fresh|].
    unfold GetUpgradeKymaOperationByID. simpl. rewrite lookup_insert_eq.
    repeat split. intros op2 Hid Hv2.
    eapply UpdateUpgradeKymaOperation_stale.
    + simpl. rewrite Hid. apply lookup_insert_eq.
    + simpl. rewrite Hv2. apply int_add_1_neq.
Qed.

(** C1. An update of a stored operation is a compare-and-swap on [Version],
    for each of the three kinds.  With [old] the stored operation of the
    given id: a different version gives [Conflict] and the store is the same;
    the same version succeeds, the store then holds the given value with
    [Version + 1] (Go's [int] addition, which is [Version + 1] exactly below
    the largest [int]), and a second update that carries the version the
    first one was submitted with gets [Conflict] and changes nothing: of two
    updates against one stored version, the first wins and the other loses. *)
Theorem Update_compare_and_swap (s : operations) :
  (∀ op old,
     provisioningOperations s !! ID (pOperation op) = Some old →
     (Version (pOperation old) ≠ Version (pOperation op) →
        UpdateProvisioningOperation s op = (s, Err Conflict))
     ∧ (Version (pOperation old) = Version (pOperation op) →
        ∃ s', UpdateProvisioningOperation s op = (s', Ok (bumpedP op))
          ∧ GetProvisioningOperationByID s' (ID (pOperation op)) = Ok (bumpedP op)
          ∧ (int_range (Version (pOperation op)) →
             Version (pOperation op) ≠ max_int →
             Version (pOperation (bumpedP op)) = (Version (pOperation op) + 1)%Z)
          ∧ ∀ op2, ID (pOperation op2) = ID (pOperation op) →
                   Version (pOperation op2) = Version (pOperation op) →
                   UpdateProvisioningOperation s' op2 = (s', Err Conflict)))
  ∧ (∀ op old,
     deprovisioningOperations s !! ID (dOperation op) = Some old →
     (Version (dOperation old) ≠ Version (dOperation op) →
        UpdateDeprovisioningOperation s op = (s, Err Conflict))
     ∧ (Version (dOperation old) = Version (dOperation op) →
        ∃ s', UpdateDeprovisioningOperation s op = (s', Ok (bumpedD op))
          ∧ GetDeprovisioningOperationByID s' (ID (dOperation op)) = Ok (bumpedD op)
          ∧ (int_range (Version (dOperation op)) →
             Version (dOperation op) ≠ max_int →
             Version (dOperation (bumpedD op)) = (Version (dOperation op) + 1)%Z)
          ∧ ∀ op2, ID (dOperation op2) = ID (dOperation op) →
                   Version (dOperation op2) = Version (dOperation op) →
                   UpdateDeprovisioningOperation s' op2 = (s', Err Conflict)))
  ∧ (∀ op old,
     upgradeKymaOperations s !! ID (uOperation op) = Some old →
     (Version (uOperation old) ≠ Version (uOperation op) →
        UpdateUpgradeKymaOperation s op = (s, Err Conflict))
     ∧ (Version (uOperation old) = Version (uOperation op) →
        ∃ s', UpdateUpgradeKymaOperation s op = (s', Ok (bumpedU op))
          ∧ GetUpgradeKymaOperationByID s' (ID (uOperation op)) = Ok (bumpedU op)
          ∧ (int_range (Version (uOperation op)) →
             Version (uOperation op) ≠ max_int →
             Version (uOperation (bumpedU op)) = (Version (uOperation op) + 1)%Z)
          ∧ ∀ op2, ID (uOperation op2) = ID (uOperation op) →
                   Version (uOperation op2) = Version (uOperation op) →
                   UpdateUpgradeKymaOperation s' op2 = (s', Err Conflict))).
Proof.
  split; [|split]; intros op old H.
  - destruct (UpdateProvisioningOperation_cas s op old H) as [Hs Hf].
    split; [exact Hs|]. intros Hv.
    destruct (Hf Hv) as (s' & Hu & Hg & Hver & Hlose).
    exists s'. repeat split; try assumption.
    intros Hr Hm. rewrite Hver. by apply int_succ_exact.
  - destruct (UpdateDeprovisioningOperation_cas s op old H) as [Hs Hf].
    split; [exact Hs|]. intros Hv.
    destruct (Hf Hv) as (s' & Hu & Hg & Hver & Hlose).
    exists s'. repeat split; try assumption.
    intros Hr Hm. rewrite Hver. by apply int_succ_exact.
  - destruct (UpdateUpgradeKymaOperation_cas s op old H) as [Hs Hf].
    split; [exact Hs|]. intros Hv.
    destruct (Hf Hv) as (s' & Hu & Hg & Hver & Hlose).
    exists s'. repeat split; try assumption.
    intros Hr Hm. rewrite Hver. by apply int_succ_exact.
Qed.

Lemma Update_compare_and_swap_witness :
  upgradeKymaOperations sampleStore !! ID (uOperation sampleU1) = Some sampleU1
  ∧ Version (uOperation sampleU1) = Version (uOperation sampleU1)
  ∧ ∃ s', UpdateUpgradeKymaOperation sampleStore sampleU1 = (s', Ok (bumpedU sampleU1))
      ∧ GetUpgradeKymaOperationByID s' (ID (uOperation sampleU1)) = Ok (bumpedU sampleU1)
      ∧ (int_range (Version (uOperation sampleU1)) →
         Version (uOperation sampleU1) ≠ max_int →
         Version (uOperation (bumpedU sampleU1)) = (Version (uOperation sampleU1) + 1)%Z)
      ∧ ∀ op2, ID (uOperation op2) = ID (uOperation sampleU1) →
               Version (uOperation op2) = Version (uOperation sampleU1) →
               UpdateUpgradeKymaOperation s' op2 = (s', Err Conflict).
Proof.
  assert (H : upgradeKymaOperations sampleStore !! ID (uOperation sampleU1)
              = Some sampleU1) by (vm_compute; reflexivity).
  split; [exact H|]. split; [reflexivity|].
  exact (proj2 (proj2 (proj2 (Update_compare_and_swap sampleStore))
                 sampleU1 sampleU1 H) eq_refl).
Defined.

(** The increment at the largest [int]: the stored version wraps around,
    and is still different from the version the update was submitted with. *)
Example Update_at_max_int :
  let op := mkUpgradeKyma (mkOperation "op-9" max_int 0 "" "" "" "") "" in
  let s := (InsertUpgradeKymaOperation NewOperation op).1 in
  (UpdateUpgradeKymaOperation s op).2 = Ok (bumpedU op)
  ∧ Version (uOperation (bumpedU op)) = min_int.
Proof. split; vm_compute; reflexivity. Qed.

(** ** Insert *)

(** C5. Insert, for each of the three kinds: when the map of that kind
    already holds the operation's id the call returns [AlreadyExists] and the
    store is unchanged; otherwise it succeeds and the operation is returned
    by the kind's [Get...ByID] for its id. *)
Theorem Insert_exists_or_stored (s : operations) :
  (∀ operation,
     (is_Some (provisioningOperations s !! ID (pOperation operation)) →
        InsertProvisioningOperation s operation = (s, Some AlreadyExists))
     ∧ (provisioningOperations s !! ID (pOperation operation) = None →
        ∃ s', InsertProvisioningOperation s operation = (s', None)
          ∧ GetProvisioningOperationByID s' (ID (pOperation operation))
            = Ok operation))
  ∧ (∀ operation,
     (is_Some (deprovisioningOperations s !! ID (dOperation operation)) →
        InsertDeprovisioningOperation s operation = (s, Some AlreadyExists))
     ∧ (deprovisioningOperations s !! ID (dOperation operation) = None →
        ∃ s', InsertDeprovisioningOperation s operation = (s', None)
          ∧ GetDeprovisioningOperationByID s' (ID (dOperation operation))
            = Ok operation))
  ∧ (∀ operation,
     (is_Some (upgradeKymaOperations s !! ID (uOperation operation)) →
        InsertUpgradeKymaOperation s operation = (s, Some AlreadyExists))
     ∧ (upgradeKymaOperations s !! ID (uOperation operation) = None →
        ∃ s', InsertUpgradeKymaOperation s operation = (s', None)
          ∧ GetUpgradeKymaOperationByID s' (ID (uOperation operation))
            = Ok operation)).
Proof.
  split; [|split]; intros operation; split.
  - intros [old H]. unfold InsertProvisioningOperation. by rewrite H.
  - intros H. unfold InsertProvisioningOperation. rewrite H.
    eexists; split; [reflexivity|].
    unfold GetProvisioningOperationByID; simpl. by rewrite lookup_insert_eq.
  - intros [old H]. unfold InsertDeprovisioningOperation. by rewrite H.
  - intros H. unfold InsertDeprovisioningOperation. rewrite H.
    eexists; split; [reflexivity|].
    unfold GetDeprovisioningOperationByID; simpl. by rewrite lookup_insert_eq.
  - intros [old H]. unfold InsertUpgradeKymaOperation. by rewrite H.
  - intros H. unfold InsertUpgradeKymaOperation. rewrite H.
    eexists; split; [reflexivity|].
    unfold GetUpgradeKymaOperationByID; simpl. by rewrite lookup_insert_eq.
Qed.

Lemma Insert_exists_or_stored_witness :
  (is_Some (upgradeKymaOperations sampleStore !! ID (uOperation sampleU1))
   ∧ InsertUpgradeKymaOperation sampleStore sampleU1
     = (sampleStore, Some AlreadyExists))
  ∧ (provisioningOperations NewOperation !! ID (pOperation sampleP) = None
     ∧ ∃ s', InsertProvisioningOperation NewOperation sampleP = (s', None)
         ∧ GetProvisioningOperationByID s' (ID (pOperation sampleP)) = Ok sampleP).
Proof.
  assert (H1 : is_Some (upgradeKymaOperations sampleStore
                          !! ID (uOperation sampleU1)))
    by (exists sampleU1; vm_compute; reflexivity).
  assert (H2 : provisioningOperations NewOperation !! ID (pOperation sampleP)
               = None) by reflexivity.
  split; split; [exact H1 | | exact H2 | ].
  - exact (proj1 (proj2 (proj2 (Insert_exists_or_stored sampleStore)) sampleU1) H1).
  - exact (proj2 (proj1 (Insert_exists_or_stored NewOperation) sampleP) H2).
Defined.

(** ** GetOperationByID *)

(** C4. [GetOperationByID] looks the id up in the three maps and the last
    kind that holds it wins: the upgrade-Kyma operation when there is one,
    else the deprovisioning one, else the provisioning one; [NotFound] when
    no map holds the id. *)
Theorem GetOperationByID_last_kind_wins (s : operations) (operationID : string) :
  (∀ u, upgradeKymaOperations s !! operationID = Some u →
        GetOperationByID s operationID = Ok (uOperation u))
  ∧ (∀ d, upgradeKymaOperations s !! operationID = None →
          deprovisioningOperations s !! operationID = Some d →
          GetOperationByID s operationID = Ok (dOperation d))
  ∧ (∀ p, upgradeKymaOperations s !! operationID = None →
          deprovisioningOperations s !! operationID = None →
          provisioningOperations s !! operationID = Some p →
          GetOperationByID s operationID = Ok (pOperation p))
  ∧ (upgradeKymaOperations s !! operationID = None →
     deprovisioningOperations s !! operationID = None →
     provisioningOperations s !! operationID = None →
     GetOperationByID s operationID = Err NotFound).
Proof.
  unfold GetOperationByID. repeat split.
  - intros u Hu. rewrite Hu.
    by destruct (provisioningOperations s !! operationID),
                (deprovisioningOperations s !! operationID).
  - intros d Hu Hd. rewrite Hu, Hd.
    by destruct (provisioningOperations s !! operationID).
  - intros p Hu Hd Hp. by rewrite Hu, Hd, Hp.
  - intros Hu Hd Hp. by rewrite Hu, Hd, Hp.
Qed.

Lemma GetOperationByID_last_kind_wins_witness :
  (provisioningOperations sampleStore !! "op-1" = Some sampleP
   ∧ deprovisioningOperations sampleStore !! "op-1" = Some sampleD
   ∧ upgradeKymaOperations sampleStore !! "op-1" = Some sampleU1
   ∧ GetOperationByID sampleStore "op-1" = Ok (uOperation sampleU1))
  ∧ (upgradeKymaOperations sampleStore !! "op-3" = None
     ∧ deprovisioningOperations sampleStore !! "op-3" = None
     ∧ provisioningOperations sampleStore !! "op-3" = Some sampleP3
     ∧ GetOperationByID sampleStore "op-3" = Ok (pOperation sampleP3))
  ∧ (upgradeKymaOperations sampleStore !! "op-7" = None
     ∧ deprovisioningOperations sampleStore !! "op-7" = None
     ∧ provisioningOperations sampleStore !! "op-7" = None
     ∧ GetOperationByID sampleStore "op-7" = Err NotFound).
Proof.
  assert (Hu1 : upgradeKymaOperations sampleStore !! "op-1" = Some sampleU1)
    by (vm_compute; reflexivity).
  assert (Hu3 : upgradeKymaOperations sampleStore !! "op-3" = None)
    by (vm_compute; reflexivity).
  assert (Hd3 : deprovisioningOperations sampleStore !! "op-3" = None)
    by (vm_compute; reflexivity).
  assert (Hp3 : provisioningOperations sampleStore !! "op-3" = Some sampleP3)
    by (vm_compute; reflexivity).
  assert (Hu7 : upgradeKymaOperations sampleStore !! "op-7" = None)
    by (vm_compute; reflexivity).
  assert (Hd7 : deprovisioningOperations sampleStore !! "op-7" = None)
    by (vm_compute; reflexivity).
  assert (Hp7 : provisioningOperations sampleStore !! "op-7" = None)
    by (vm_compute; reflexivity).
  split; [|split].
  - split; [vm_compute; reflexivity|]. split; [vm_compute; reflexivity|].
    split; [exact Hu1|].
    exact (proj1 (GetOperationByID_last_kind_wins sampleStore "op-1") _ Hu1).
  - repeat (split; [assumption|]).
    exact (proj1 (proj2 (proj2 (GetOperationByID_last_kind_wins sampleStore "op-3")))
             _ Hu3 Hd3 Hp3).
  - repeat (split; [assumption|]).
    exact (proj2 (proj2 (proj2 (GetOperationByID_last_kind_wins sampleStore "op-7")))
             Hu7 Hd7 Hp7).
Defined.

(** ** Sorting *)

Section sort_Slice.
Context {A : Type} (less : A → A → bool) (R : A → A → Prop).
Hypothesis less_R : ∀ x y, less x y = true → R x y.
Hypothesis not_less_R : ∀ x y, less x y = false → R y x.

Lemma sort_insert_perm x xs : sort_insert less x xs ≡ₚ x :: xs.
Proof.
  induction xs as [|y ys IH]; simpl; [done|].
  destruct (less y x); [|done].
  rewrite IH. apply Permutation_swap.
Qed.

Lemma sort_Slice_perm xs : sort_Slice less xs ≡ₚ xs.
Proof.
  induction xs as [|x xs IH]; simpl; [done|].
  rewrite sort_insert_perm. by rewrite IH.
Qed.

Lemma sort_insert_HdRel a x xs :
  R a x → HdRel R a xs → HdRel R a (sort_insert less x xs).
Proof.
  intros Hax Hxs. destruct xs as [|y ys]; simpl.
  - by constructor.
  - inversion_clear Hxs. destruct (less y x); by constructor.
Qed.

Lemma sort_insert_Sorted x xs :
  Sorted R xs → Sorted R (sort_insert less x xs).
Proof.
  induction 1 as [|y ys Hs IH Hhd]; simpl.
  - by repeat constructor.
  - destruct (less y x) eqn:E.
    + constructor; [exact IH|]. apply sort_insert_HdRel; auto.
    + constructor; [by constructor|]. constructor. by apply not_less_R.
Qed.

Lemma sort_Slice_Sorted xs : Sorted R (sort_Slice less xs).
Proof.
  induction xs as [|x xs IH]; simpl; [constructor|].
  by apply sort_insert_Sorted.
Qed.
End sort_Slice.

Lemma getUpgradeSortedByCreatedAt_perm m :
  getUpgradeSortedByCreatedAt m ≡ₚ range_values m.
Proof. apply sort_Slice_perm. Qed.

Lemma getUpgradeSortedByCreatedAt_sorted m :
  StronglySorted createdNoLater (getUpgradeSortedByCreatedAt m).
Proof.
  apply Sorted_StronglySorted.
  - intros a b c. unfold createdNoLater. lia.
  - apply sort_Slice_Sorted.
    + intros x y H. apply bool_decide_eq_true_1 in H.
      unfold createdNoLater. lia.
    + intros x y H. apply bool_decide_eq_false_1 in H.
      unfold createdNoLater. lia.
Qed.

Lemma elem_of_range_values {A} (m : gmap string A) (v : A) :
  v ∈ range_values m ↔ ∃ k, m !! k = Some v.
Proof.
  unfold range_values. rewrite list_elem_of_fmap. split.
  - intros [[k w] [-> H]]. exists k. by apply elem_of_map_to_list in H.
  - intros [k H]. exists (k, v). split; [done|]. by apply elem_of_map_to_list.
Qed.

(** ** ListUpgradeKymaOperationsByInstanceID *)

(** C9. [ListUpgradeKymaOperationsByInstanceID] returns the same list for
    any two instance ids: all the stored upgrade-Kyma operations (each entry
    of the map once, nothing else, no paging), in ascending order of
    [CreatedAt]. *)
Theorem ListUpgradeKymaOperationsByInstanceID_unfiltered
    (s : operations) (instanceID instanceID' : string) :
  ListUpgradeKymaOperationsByInstanceID s instanceID
  = ListUpgradeKymaOperationsByInstanceID s instanceID'
  ∧ ListUpgradeKymaOperationsByInstanceID s instanceID
    ≡ₚ (map_to_list (upgradeKymaOperations s)).*2
  ∧ length (ListUpgradeKymaOperationsByInstanceID s instanceID)
    = size (upgradeKymaOperations s)
  ∧ (∀ op, op ∈ ListUpgradeKymaOperationsByInstanceID s instanceID
           ↔ ∃ id, upgradeKymaOperations s !! id = Some op)
  ∧ StronglySorted createdNoLater
      (ListUpgradeKymaOperationsByInstanceID s instanceID).
Proof.
  unfold ListUpgradeKymaOperationsByInstanceID.
  pose proof (getUpgradeSortedByCreatedAt_perm (upgradeKymaOperations s)) as Hp.
  repeat split.
  - exact Hp.
  - rewrite Hp. unfold range_values.
    by rewrite length_fmap, length_map_to_list.
  - rewrite Hp. apply elem_of_range_values.
  - rewrite Hp. apply elem_of_range_values.
  - apply getUpgradeSortedByCreatedAt_sorted.
Qed.

(** The instance id is ignored even when no stored operation carries it. *)
Example ListUpgradeKymaOperationsByInstanceID_sample :
  ListUpgradeKymaOperationsByInstanceID sampleStore "inst-1" = [sampleU1; sampleU2]
  ∧ ListUpgradeKymaOperationsByInstanceID sampleStore "no-such-instance"
    = [sampleU1; sampleU2].
Proof. split; vm_compute; reflexivity. Qed.

(** ** The stores the methods build are keyed by [ID] *)

Lemma keyed_insert {A} (core : A → Operation) (m : gmap string A) (op : A) :
  (∀ k v, m !! k = Some v → ID (core v) = k) →
  ∀ k v, <[ID (core op) := op]> m !! k = Some v → ID (core v) = k.
Proof.
  intros Hm k v. rewrite lookup_insert. case_decide as E.
  - intros [= <-]. exact E.
  - apply Hm.
Qed.

Lemma reachable_keyedByID s : reachable s → keyedByID s.
Proof.
  induction 1 as [|s op _ (Hp & Hd & Hu)|s op _ (Hp & Hd & Hu)
                  |s op _ (Hp & Hd & Hu)|s op _ (Hp & Hd & Hu)
                  |s op _ (Hp & Hd & Hu)|s op _ (Hp & Hd & Hu)].
  - repeat split; intros k v; simpl; by rewrite lookup_empty.
  - unfold InsertProvisioningOperation.
    destruct (provisioningOperations s !! _); simpl; [done|].
    repeat split; simpl; [|done..]. by apply (keyed_insert pOperation).
  - unfold InsertDeprovisioningOperation.
    destruct (deprovisioningOperations s !! _); simpl; [done|].
    repeat split; simpl; [done| |done]. by apply (keyed_insert dOperation).
  - unfold InsertUpgradeKymaOperation.
    destruct (upgradeKymaOperations s !! _); simpl; [done|].
    repeat split; simpl; [done..|]. by apply (keyed_insert uOperation).
  - unfold UpdateProvisioningOperation.
    destruct (provisioningOperations s !! _); simpl; [|done].
    case_bool_decide; simpl; [done|].
    repeat split; simpl; [|done..].
    apply (keyed_insert pOperation _ (bumpedP op)), Hp.
  - unfold UpdateDeprovisioningOperation.
    destruct (deprovisioningOperations s !! _); simpl; [|done].
    case_bool_decide; simpl; [done|].
    repeat split; simpl; [done| |done].
    apply (keyed_insert dOperation _ (bumpedD op)), Hd.
  - unfold UpdateUpgradeKymaOperation.
    destruct (upgradeKymaOperations s !! _); simpl; [|done].
    case_bool_decide; simpl; [done|].
    repeat split; simpl; [done..|].
    apply (keyed_insert uOperation _ (bumpedU op)), Hu.
Qed.

Lemma sampleStore_reachable : reachable sampleStore.
Proof. unfold sampleStore. repeat constructor. Qed.

(** ** GetOperationsForIDs *)

Section collect.
Context {A : Type} (core : A → Operation).

(** The inner loop appends the matching cores in iteration order. *)
Lemma inner_loop_filter (opID : string) (vs : list A) (ops : list Operation) :
  foldl (λ ops op, if bool_decide (ID (core op) = opID)
                   then ops ++ [core op] else ops) ops vs
  = ops ++ (core <$> filter (λ v, ID (core v) = opID) vs).
Proof.
  revert ops. induction vs as [|v vs IH]; intros ops; simpl.
  - by rewrite app_nil_r.
  - rewrite IH. rewrite filter_cons. case_bool_decide; case_decide; try done.
    by rewrite <- app_assoc.
Qed.

(** In a map keyed by [ID], at most the entry under [opID] matches. *)
Lemma filter_keyed (m : gmap string A) (opID : string) :
  (∀ k v, m !! k = Some v → ID (core v) = k) →
  filter (λ v, ID (core v) = opID) (range_values m) = option_list (m !! opID).
Proof.
  unfold range_values.
  induction m as [|k x m Hk Hfold IH] using map_first_key_ind; intros Hm.
  - by rewrite map_to_list_empty, lookup_empty.
  - rewrite map_to_list_insert_first_key by done. simpl.
    assert (Hx : ID (core x) = k) by (apply Hm; apply lookup_insert_eq).
    assert (Hm' : ∀ j v, m !! j = Some v → ID (core v) = j).
    { intros j v Hj. apply Hm. rewrite lookup_insert_ne; [done|].
      intros ->. congruence. }
    specialize (IH Hm'). unfold fmap in IH.
  rewrite filter_cons, IH, lookup_insert. cbn [snd].
    case_decide as E1; case_decide as E2; try congruence.
    subst. by rewrite Hk.
Qed.

Lemma collectForIDs_keyed (m : gmap string A) (opIdList : list string)
    (ops : list Operation) :
  (∀ k v, m !! k = Some v → ID (core v) = k) →
  collectForIDs core m opIdList ops = ops ++ foundFor core m opIdList.
Proof.
  intros Hm. unfold collectForIDs, foundFor. revert ops.
  induction opIdList as [|opID ids IH]; intros ops; simpl.
  - by rewrite app_nil_r.
  - rewrite inner_loop_filter, (filter_keyed m opID Hm), IH.
    rewrite <- app_assoc. f_equal.
    by destruct (m !! opID).
Qed.

Lemma foundFor_nil (m : gmap string A) (opIdList : list string) :
  foundFor core m opIdList = [] ↔ ∀ id, id ∈ opIdList → m !! id = None.
Proof.
  unfold foundFor. induction opIdList as [|id ids IH]; simpl.
  - split; [|done]. intros _ id H. by apply elem_of_nil in H.
  - destruct (m !! id) as [v|] eqn:E; simpl.
    + split; [done|]. intros H. specialize (H id (list_elem_of_here _ _)).
      congruence.
    + rewrite IH. split.
      * intros H j Hj. apply elem_of_cons in Hj as [->|Hj]; auto.
      * intros H j Hj. apply H. by apply list_elem_of_further.
Qed.
End collect.


Lemma GetOperationsForIDs_keyed s opIdList :
  keyedByID s →
  GetOperationsForIDs s opIdList =
    let ops := foundFor uOperation (upgradeKymaOperations s) opIdList
               ++ foundFor pOperation (provisioningOperations s) opIdList
               ++ foundFor dOperation (deprovisioningOperations s) opIdList in
    if bool_decide (ops = []) then Err NotFound else Ok ops.
Proof.
  intros (Hp & Hd & Hu). unfold GetOperationsForIDs.
  rewrite (collectForIDs_keyed uOperation _ _ _ Hu).
  rewrite (collectForIDs_keyed pOperation _ _ _ Hp).
  rewrite (collectForIDs_keyed dOperation _ _ _ Hd).
  cbn zeta. rewrite app_nil_l, <- app_assoc.
  set (ops := _ ++ _ ++ _).
  destruct ops as [|o ops']; [done|].
  rewrite bool_decide_eq_false_2; [|unfold len; simpl; lia].
  by rewrite bool_decide_eq_false_2.
Qed.

(** C10. [GetOperationsForIDs] on a store keyed by [ID] (every store the
    methods build is): when none of the three maps holds an id of the list
    the call returns [NotFound], not an empty list; when some map holds one,
    it returns the operations found, grouped by kind -- the upgrade-Kyma
    ones first, then the provisioning ones, then the deprovisioning ones --
    and the order of the id list matters within a kind only. *)
Theorem GetOperationsForIDs_grouped_by_kind (s : operations)
    (opIdList : list string) :
  keyedByID s →
  ((∀ id, id ∈ opIdList →
          upgradeKymaOperations s !! id = None
          ∧ provisioningOperations s !! id = None
          ∧ deprovisioningOperations s !! id = None) →
   GetOperationsForIDs s opIdList = Err NotFound)
  ∧ ((∃ id, id ∈ opIdList
            ∧ (is_Some (upgradeKymaOperations s !! id)
               ∨ is_Some (provisioningOperations s !! id)
               ∨ is_Some (deprovisioningOperations s !! id))) →
     GetOperationsForIDs s opIdList =
       Ok (foundFor uOperation (upgradeKymaOperations s) opIdList
           ++ foundFor pOperation (provisioningOperations s) opIdList
           ++ foundFor dOperation (deprovisioningOperations s) opIdList)
     ∧ foundFor uOperation (upgradeKymaOperations s) opIdList
       ++ foundFor pOperation (provisioningOperations s) opIdList
       ++ foundFor dOperation (deprovisioningOperations s) opIdList ≠ []).
Proof.
  intros Hk. rewrite (GetOperationsForIDs_keyed s opIdList Hk). cbn zeta.
  split.
  - intros Hnone.
    assert (Hu : foundFor uOperation (upgradeKymaOperations s) opIdList = [])
      by (apply foundFor_nil; intros id Hid; apply (Hnone id Hid)).
    assert (Hp : foundFor pOperation (provisioningOperations s) opIdList = [])
      by (apply foundFor_nil; intros id Hid; apply (Hnone id Hid)).
    assert (Hd : foundFor dOperation (deprovisioningOperations s) opIdList = [])
      by (apply foundFor_nil; intros id Hid; apply (Hnone id Hid)).
    by rewrite Hu, Hp, Hd.
  - intros (id & Hid & Hsome).
    assert (Hne : foundFor uOperation (upgradeKymaOperations s) opIdList
                  ++ foundFor pOperation (provisioningOperations s) opIdList
                  ++ foundFor dOperation (deprovisioningOperations s) opIdList
                  ≠ []).
    { intros Hnil.
      apply app_eq_nil in Hnil as [Hu Hpd].
      apply app_eq_nil in Hpd as [Hp Hd].
      pose proof (proj1 (foundFor_nil _ _ _) Hu id Hid) as Hu'.
      pose proof (proj1 (foundFor_nil _ _ _) Hp id Hid) as Hp'.
      pose proof (proj1 (foundFor_nil _ _ _) Hd id Hid) as Hd'.
      destruct Hsome as [[v E]|[[v E]|[v E]]]; congruence. }
    split; [|exact Hne]. by rewrite bool_decide_eq_false_2.
Qed.

(** On the sample store the list names a provisioning operation before an
    upgrade-Kyma one, and the upgrade-Kyma one is returned first. *)
Lemma GetOperationsForIDs_grouped_by_kind_witness :
  keyedByID sampleStore
  ∧ (∃ id, id ∈ ["op-3"; "op-2"]
           ∧ (is_Some (upgradeKymaOperations sampleStore !! id)
              ∨ is_Some (provisioningOperations sampleStore !! id)
              ∨ is_Some (deprovisioningOperations sampleStore !! id)))
  ∧ GetOperationsForIDs sampleStore ["op-3"; "op-2"]
    = Ok (foundFor uOperation (upgradeKymaOperations sampleStore) ["op-3"; "op-2"]
          ++ foundFor pOperation (provisioningOperations sampleStore) ["op-3"; "op-2"]
          ++ foundFor dOperation (deprovisioningOperations sampleStore) ["op-3"; "op-2"]).
Proof.
  assert (Hk : keyedByID sampleStore)
    by exact (reachable_keyedByID _ sampleStore_reachable).
  assert (Hs : ∃ id, id ∈ ["op-3"; "op-2"]
           ∧ (is_Some (upgradeKymaOperations sampleStore !! id)
              ∨ is_Some (provisioningOperations sampleStore !! id)
              ∨ is_Some (deprovisioningOperations sampleStore !! id))).
  { exists "op-3". split; [apply list_elem_of_here|].
    right; left. exists sampleP3. vm_compute; reflexivity. }
  split; [exact Hk|]. split; [exact Hs|].
  exact (proj1 (proj2 (GetOperationsForIDs_grouped_by_kind sampleStore
                         ["op-3"; "op-2"] Hk) Hs)).
Defined.

Example GetOperationsForIDs_sample :
  GetOperationsForIDs sampleStore ["op-3"; "op-2"]
  = Ok [uOperation sampleU2; pOperation sampleP3]
  ∧ GetOperationsForIDs sampleStore ["op-2"; "op-1"]
    = Ok [uOperation sampleU2; uOperation sampleU1;
          pOperation sampleP; dOperation sampleD]
  ∧ GetOperationsForIDs sampleStore ["op-7"] = Err NotFound
  ∧ GetOperationsForIDs sampleStore [] = Err NotFound.
Proof. repeat split; vm_compute; reflexivity. Qed.

(** ** GetOperationStatsForOrchestration *)

Lemma GetOperationStatsForOrchestration_any_id s orchestrationID orchestrationID' :
  GetOperationStatsForOrchestration s orchestrationID
  = GetOperationStatsForOrchestration s orchestrationID'.
Proof. reflexivity. Qed.

(** C3 fails on the code.  The sample store holds one upgrade-Kyma operation
    of orchestration [orch-1], in progress, and one of [orch-2], succeeded.
    The statistics asked for [orch-1] count both, and an orchestration no
    operation belongs to gets the same counts. *)
Theorem GetOperationStatsForOrchestration_counts_every_orchestration :
  GetOperationStatsForOrchestration sampleStore "orch-1" !! InProgress = Some 1%Z
  ∧ GetOperationStatsForOrchestration sampleStore "orch-1" !! Succeeded = Some 1%Z
  ∧ GetOperationStatsForOrchestration sampleStore "orch-1" !! Failed = Some 0%Z
  ∧ filter (λ op, OrchestrationID (uOperation op) = "orch-1"
                  ∧ State (uOperation op) = Succeeded)
           (range_values (upgradeKymaOperations sampleStore)) = []
  ∧ GetOperationStatsForOrchestration sampleStore "no-such-orchestration"
    = GetOperationStatsForOrchestration sampleStore "orch-1".
Proof. repeat split; vm_compute; reflexivity. Qed.

(** ** ListUpgradeKymaOperationsByOrchestrationID *)

Lemma ListUpgradeKymaOperationsByOrchestrationID_any_id
    s orchestrationID orchestrationID' pageSize page :
  ListUpgradeKymaOperationsByOrchestrationID s orchestrationID pageSize page
  = ListUpgradeKymaOperationsByOrchestrationID s orchestrationID' pageSize page.
Proof. reflexivity. Qed.

(** C2 fails on the code.  On the sample store, page 1 of size 10 for
    [orch-1]: the only operation of that orchestration is [sampleU1], so the
    claim asks for [([sampleU1], 1, 1)].  The call returns two zero-valued
    operations (the map is read under the [OrchestrationID] of each sorted
    operation, a key no entry has) and reports 2 as the total (the size of
    the whole map). *)
Theorem ListUpgradeKymaOperationsByOrchestrationID_sample :
  ListUpgradeKymaOperationsByOrchestrationID sampleStore "orch-1" 10 1
  = Returns ([zeroUpgradeKymaOperation; zeroUpgradeKymaOperation], 2%Z, 2%Z)
  ∧ filter (λ op, OrchestrationID (uOperation op) = "orch-1")
           (range_values (upgradeKymaOperations sampleStore)) = [sampleU1].
Proof. split; vm_compute; reflexivity. Qed.

(** C8 fails on the code.  On the sample store (two upgrade-Kyma
    operations), page 2 of size 2 starts at offset 2; the loop condition
    [i < len(sortedOperations)+offset] lets [i = 2] through and
    [sortedOperations[2]] is out of range. *)
Theorem ListUpgradeKymaOperationsByOrchestrationID_panics :
  ConvertPageAndPageSizeToOffset 2 2 = 2%Z
  ∧ len (getUpgradeSortedByCreatedAt (upgradeKymaOperations sampleStore)) = 2%Z
  ∧ ListUpgradeKymaOperationsByOrchestrationID sampleStore "orch-1" 2 2 = Panics.
Proof. repeat split; vm_compute; reflexivity. Qed.

(** Whatever the page conversion computes: from an offset at or past the
    end of a non-empty store the first index used is out of range. *)
Lemma listByOrchestrationIDFrom_past_end s orchestrationID offset pageSize :
  (0 < size (upgradeKymaOperations s))%nat →
  (Z.of_nat (size (upgradeKymaOperations s)) ≤ offset)%Z →
  (1 ≤ pageSize)%Z →
  (offset + pageSize ≤ max_int)%Z →
  (Z.of_nat (size (upgradeKymaOperations s)) + offset ≤ max_int)%Z →
  listByOrchestrationIDFrom s orchestrationID offset pageSize = Panics.
Proof.
  intros Hpos Hoff Hps Hov1 Hov2. unfold listByOrchestrationIDFrom.
  set (sorted := getUpgradeSortedByCreatedAt (upgradeKymaOperations s)).
  assert (Hlen : length sorted = size (upgradeKymaOperations s)).
  { unfold sorted. rewrite getUpgradeSortedByCreatedAt_perm.
    unfold range_values. by rewrite length_fmap, length_map_to_list. }
  cbn zeta. cbn [pageLoop].
  unfold int_add, len. rewrite Hlen.
  rewrite !int_wrap_id by (unfold int_range, min_int, max_int in *; lia).
  replace (offset <? offset + pageSize)%Z with true
    by (symmetry; apply Z.ltb_lt; lia).
  replace (offset <? Z.of_nat (size (upgradeKymaOperations s)) + offset)%Z
    with true by (symmetry; apply Z.ltb_lt; lia).
  cbn [andb]. unfold index.
  replace (offset <? 0)%Z with false by (symmetry; apply Z.ltb_ge; lia).
  rewrite lookup_ge_None_2; [done|]. lia.
Qed.

(** From offset 0 the loop stays inside the slice and returns the first
    [min pageSize (len sorted)] reads. *)
Lemma pageLoop_first_page fuel s sorted pageSize i acc :
  (0 ≤ pageSize ≤ max_int)%Z →
  (len sorted ≤ max_int)%Z →
  (0 ≤ i ≤ len sorted)%Z →
  (len sorted - i < Z.of_nat fuel)%Z →
  ∃ r, pageLoop fuel s sorted 0 pageSize i acc = Returns r
       ∧ len r = (len acc + Z.max 0 (Z.min pageSize (len sorted) - i))%Z.
Proof.
  intros Hps Hn. revert i acc.
  induction fuel as [|fuel IH]; intros i acc Hi Hfuel; [lia|].
  cbn [pageLoop]. unfold int_add.
  rewrite (int_wrap_id (0 + pageSize))
    by (unfold int_range, min_int, max_int in *; lia).
  rewrite (int_wrap_id (len sorted + 0))
    by (unfold int_range, min_int, max_int, len in *; lia).
  rewrite Z.add_0_l, Z.add_0_r.
  destruct (i <? pageSize)%Z eqn:E1; destruct (i <? len sorted)%Z eqn:E2;
    cbn [andb];
    try (apply Z.ltb_lt in E1); try (apply Z.ltb_ge in E1);
    try (apply Z.ltb_lt in E2); try (apply Z.ltb_ge in E2);
    try (exists acc; split; [reflexivity | lia]).
  unfold index. replace (i <? 0)%Z with false by (symmetry; apply Z.ltb_ge; lia).
  destruct (lookup_lt_is_Some_2 sorted (Z.to_nat i)) as [o Ho];
    [unfold len in E2; lia|].
  rewrite Ho.
  rewrite (int_wrap_id (i + 1))
    by (unfold int_range, min_int, max_int in *; lia).
  destruct (IH (i + 1)%Z
              (acc ++ [default zeroUpgradeKymaOperation
                         (upgradeKymaOperations s
                            !! OrchestrationID (uOperation o))]))
    as (r & Hr & Hlen); [lia | lia |].
  exists r. split; [exact Hr|].
  rewrite Hlen. unfold len in *. rewrite length_app. cbn [length]. lia.
Qed.

Lemma ListUpgradeKymaOperationsByOrchestrationID_first_page
    s orchestrationID pageSize page :
  (page < 2)%Z →
  (0 ≤ pageSize ≤ max_int)%Z →
  (Z.of_nat (size (upgradeKymaOperations s)) ≤ max_int)%Z →
  ∃ items,
    ListUpgradeKymaOperationsByOrchestrationID s orchestrationID pageSize page
    = Returns (items, len items, Z.of_nat (size (upgradeKymaOperations s)))
    ∧ len items = Z.min pageSize (Z.of_nat (size (upgradeKymaOperations s))).
Proof.
  intros Hpage Hps Hn.
  unfold ListUpgradeKymaOperationsByOrchestrationID,
    ConvertPageAndPageSizeToOffset, listByOrchestrationIDFrom.
  replace (page <? 2)%Z with true by (symmetry; apply Z.ltb_lt; lia).
  set (sorted := getUpgradeSortedByCreatedAt (upgradeKymaOperations s)).
  assert (Hlen : length sorted = size (upgradeKymaOperations s)).
  { unfold sorted. rewrite getUpgradeSortedByCreatedAt_perm.
    unfold range_values. by rewrite length_fmap, length_map_to_list. }
  cbn zeta.
  destruct (pageLoop_first_page (S (length sorted)) s sorted pageSize 0 [])
    as (r & Hr & Hl); [done | unfold len; lia | unfold len; lia
                       | unfold len; lia |].
  rewrite Hr. exists r. split.
  - unfold len at 2, range_values. by rewrite length_fmap, length_map_to_list.
  - rewrite Hl. unfold len. simpl. lia.
Qed.

(** ** parseRuntimeTarget *)

Lemma Split_not_nil s sep : Split s sep ≠ [].
Proof.
  destruct s as [|c rest]; simpl; [done|].
  destruct (Ascii.eqb c sep); [done|]. by destruct (Split rest sep).
Qed.

Lemma checkRuntimeTargetSelector_None selectorKey selectorValue flagName :
  checkRuntimeTargetSelector selectorKey selectorValue flagName = None
  ↔ selectorValue ≠ "".
Proof.
  unfold checkRuntimeTargetSelector.
  destruct (String.eqb selectorValue "") eqn:E.
  - apply String.eqb_eq in E. split; [done|congruence].
  - apply String.eqb_neq in E. done.
Qed.

Ltac key_case E :=
  first [ apply String.eqb_eq in E | apply String.eqb_neq in E ].

Lemma parseSelector_accepts include flagName target selector :
  (∃ target', parseSelector include flagName target selector = inr target')
  ↔ selectorAccepted include selector.
Proof.
  unfold parseSelector, selectorAccepted.
  set (k := selectorKeyOf selector). set (v := selectorValueOf selector).
  rewrite !elem_of_cons, elem_of_nil.
  destruct (String.eqb k TargetAll) eqn:Eall; key_case Eall.
  { destruct include; simpl.
    - split; [intros _; by left | eauto].
    - split; [by intros [? ?]|].
      intros [[_ ?]|[Hk _]]; [done|].
      exfalso. rewrite Eall in Hk.
      destruct Hk as [?|[?|[?|[?|[]]]]]; discriminate. }
  destruct (String.eqb k targetAccount) eqn:E1; key_case E1.
  { pose proof (checkRuntimeTargetSelector_None k v flagName) as Hc.
    destruct (checkRuntimeTargetSelector k v flagName).
    - split; [by intros [? ?]|]. intros [[? _]|[_ Hv]]; [done|].
      by apply Hc in Hv.
    - split; [|eauto]. intros _. right. split; [by left|]. by apply Hc. }
  destruct (String.eqb k targetSubaccount) eqn:E2; key_case E2.
  { pose proof (checkRuntimeTargetSelector_None k v flagName) as Hc.
    destruct (checkRuntimeTargetSelector k v flagName).
    - split; [by intros [? ?]|]. intros [[? _]|[_ Hv]]; [done|].
      by apply Hc in Hv.
    - split; [|eauto]. intros _. right. split; [by right; left|]. by apply Hc. }
  destruct (String.eqb k targetRegion) eqn:E3; key_case E3.
  { pose proof (checkRuntimeTargetSelector_None k v flagName) as Hc.
    destruct (checkRuntimeTargetSelector k v flagName).
    - split; [by intros [? ?]|]. intros [[? _]|[_ Hv]]; [done|].
      by apply Hc in Hv.
    - split; [|eauto]. intros _. right.
      split; [by right; right; left|]. by apply Hc. }
  destruct (String.eqb k targetRuntimeID) eqn:E4; key_case E4.
  { pose proof (checkRuntimeTargetSelector_None k v flagName) as Hc.
    destruct (checkRuntimeTargetSelector k v flagName).
    - split; [by intros [? ?]|]. intros [[? _]|[_ Hv]]; [done|].
      by apply Hc in Hv.
    - split; [|eauto]. intros _. right.
      split; [by right; right; right; left|]. by apply Hc. }
  split; [by intros [? ?]|].
  intros [[? _]|[Hk _]]; [done|].
  destruct Hk as [?|[?|[?|[?|[]]]]]; done.
Qed.

Lemma parseSelectors_accepts include flagName selectors target :
  (∃ target', parseSelectors include flagName selectors target = inr target')
  ↔ Forall (selectorAccepted include) selectors.
Proof.
  revert target. induction selectors as [|sel sels IH]; intros target; simpl.
  - split; [constructor | eauto].
  - rewrite Forall_cons.
    rewrite <- (parseSelector_accepts include flagName target sel).
    destruct (parseSelector include flagName target sel) as [err|target'].
    + split; [by intros [? ?] | by intros [[? ?] _]].
    + rewrite IH. split; [eauto | by intros [_ ?]].
Qed.

Lemma parseRuntimeTarget_nil_iff targetInput targets include :
  (parseRuntimeTarget targetInput targets include).2 = None
  ↔ Forall (selectorAccepted include) (Split targetInput ","%char).
Proof.
  rewrite <- (parseSelectors_accepts include
                (if include then "--target" else "--target-exclude")
                _ (mkRuntimeTarget "" "" "" "" "")).
  unfold parseRuntimeTarget.
  destruct (parseSelectors _ _ _ _) as [err|t]; simpl.
  - split; [done | by intros [? ?]].
  - split; eauto.
Qed.

Lemma parseRuntimeTarget_outcome targetInput targets include :
  (∃ target, parseRuntimeTarget targetInput targets include
             = (targets ++ [target], None))
  ∨ (∃ err, parseRuntimeTarget targetInput targets include
            = (targets, Some err)).
Proof.
  unfold parseRuntimeTarget.
  destruct (parseSelectors _ _ _ _) as [err|t]; eauto.
Qed.

Lemma parseRuntimeTarget_rejects targetInput targets include sel :
  sel ∈ Split targetInput ","%char →
  ¬ selectorAccepted include sel →
  ∃ err, parseRuntimeTarget targetInput targets include = (targets, Some err).
Proof.
  intros Hin Hno.
  destruct (parseRuntimeTarget_outcome targetInput targets include)
    as [[t Ht]|Herr]; [|exact Herr].
  exfalso. apply Hno.
  assert (Hnil : (parseRuntimeTarget targetInput targets include).2 = None)
    by (by rewrite Ht).
  apply parseRuntimeTarget_nil_iff in Hnil.
  by apply (proj1 (Forall_forall _ _) Hnil).
Qed.

(** C7. [parseRuntimeTarget] returns no error exactly when every selector of
    the comma-separated specifier is accepted: [all] in an include
    specifier, or one of [account], [subaccount], [region], [runtime-id]
    with a value that is not empty.  So, in an exclude specifier a selector
    [all] gives an error; in both positions one of the four keys with an
    empty value gives an error, and so does any other key; an error leaves
    the targets as they were.  The specifier [all] alone is taken in an
    include position and refused in an exclude position. *)
Theorem parseRuntimeTarget_selectors (targetInput : string)
    (targets : list RuntimeTarget) (include : bool) :
  ((parseRuntimeTarget targetInput targets include).2 = None
   ↔ Forall (selectorAccepted include) (Split targetInput ","%char))
  ∧ (include = false →
     (∃ sel, sel ∈ Split targetInput ","%char ∧ selectorKeyOf sel = TargetAll) →
     ∃ err, parseRuntimeTarget targetInput targets include = (targets, Some err))
  ∧ ((∃ sel, sel ∈ Split targetInput ","%char
             ∧ selectorKeyOf sel
                 ∈ [targetAccount; targetSubaccount; targetRegion; targetRuntimeID]
             ∧ selectorValueOf sel = "") →
     ∃ err, parseRuntimeTarget targetInput targets include = (targets, Some err))
  ∧ ((∃ sel, sel ∈ Split targetInput ","%char
             ∧ selectorKeyOf sel
                 ∉ [TargetAll; targetAccount; targetSubaccount; targetRegion;
                    targetRuntimeID]) →
     ∃ err, parseRuntimeTarget targetInput targets include = (targets, Some err))
  ∧ parseRuntimeTarget TargetAll targets true
    = (targets ++ [mkRuntimeTarget TargetAll "" "" "" ""], None)
  ∧ parseRuntimeTarget TargetAll targets false = (targets, Some ErrAllWithExclude).
Proof.
  split; [apply parseRuntimeTarget_nil_iff|].
  split; [|split; [|split; [|split; reflexivity]]].
  - intros -> (sel & Hin & Hkey).
    apply (parseRuntimeTarget_rejects _ _ _ sel Hin).
    intros [[_ ?]|[Hk _]]; [done|].
    rewrite Hkey in Hk. rewrite !elem_of_cons, elem_of_nil in Hk.
    destruct Hk as [?|[?|[?|[?|[]]]]]; discriminate.
  - intros (sel & Hin & Hkey & Hval).
    apply (parseRuntimeTarget_rejects _ _ _ sel Hin).
    intros [[Hall _]|[_ Hv]]; [|done].
    rewrite Hall in Hkey. rewrite !elem_of_cons, elem_of_nil in Hkey.
    destruct Hkey as [?|[?|[?|[?|[]]]]]; discriminate.
  - intros (sel & Hin & Hkey).
    apply (parseRuntimeTarget_rejects _ _ _ sel Hin).
    intros [[Hall _]|[Hk _]]; apply Hkey.
    + rewrite Hall. apply list_elem_of_here.
    + by apply list_elem_of_further.
Qed.

Lemma parseRuntimeTarget_selectors_witness :
  ((∃ sel, sel ∈ Split "region=eu,all" ","%char ∧ selectorKeyOf sel = TargetAll)
   ∧ ∃ err, parseRuntimeTarget "region=eu,all" [] false = ([], Some err))
  ∧ ((∃ sel, sel ∈ Split "all,account=" ","%char
             ∧ selectorKeyOf sel
                 ∈ [targetAccount; targetSubaccount; targetRegion; targetRuntimeID]
             ∧ selectorValueOf sel = "")
     ∧ ∃ err, parseRuntimeTarget "all,account=" [] true = ([], Some err))
  ∧ ((∃ sel, sel ∈ Split "plan=azure" ","%char
             ∧ selectorKeyOf sel
                 ∉ [TargetAll; targetAccount; targetSubaccount; targetRegion;
                    targetRuntimeID])
     ∧ ∃ err, parseRuntimeTarget "plan=azure" [] false = ([], Some err)).
Proof.
  assert (H1 : ∃ sel, sel ∈ Split "region=eu,all" ","%char
                      ∧ selectorKeyOf sel = TargetAll).
  { exists "all". split; [|reflexivity].
    apply list_elem_of_further, list_elem_of_here. }
  assert (H2 : ∃ sel, sel ∈ Split "all,account=" ","%char
             ∧ selectorKeyOf sel
                 ∈ [targetAccount; targetSubaccount; targetRegion; targetRuntimeID]
             ∧ selectorValueOf sel = "").
  { exists "account=". split; [apply list_elem_of_further, list_elem_of_here|].
    split; [apply list_elem_of_here | reflexivity]. }
  assert (H3 : ∃ sel, sel ∈ Split "plan=azure" ","%char
             ∧ selectorKeyOf sel
                 ∉ [TargetAll; targetAccount; targetSubaccount; targetRegion;
                    targetRuntimeID]).
  { exists "plan=azure". split; [apply list_elem_of_here|].
    rewrite !not_elem_of_cons. repeat split; try discriminate.
    apply not_elem_of_nil. }
  split; [|split].
  - split; [exact H1|].
    exact (proj1 (proj2 (parseRuntimeTarget_selectors "region=eu,all" [] false))
             eq_refl H1).
  - split; [exact H2|].
    exact (proj1 (proj2 (proj2 (parseRuntimeTarget_selectors "all,account=" [] true)))
             H2).
  - split; [exact H3|].
    exact (proj1 (proj2 (proj2 (proj2
             (parseRuntimeTarget_selectors "plan=azure" [] false)))) H3).
Defined.

(** ** ValidateTransformRuntimeTargetOpts *)

(** The targets already collected do not influence the parse. *)
Lemma parseRuntimeTarget_targets targetInput targets include :
  parseRuntimeTarget targetInput targets include
  = (targets ++ (parseRuntimeTarget targetInput [] include).1,
     (parseRuntimeTarget targetInput [] include).2).
Proof.
  unfold parseRuntimeTarget.
  destruct (parseSelectors _ _ _ _) as [err|t]; simpl; [|done].
  by rewrite app_nil_r.
Qed.

Lemma targetParses_inv include targetInput :
  targetParses include targetInput →
  ∃ target, parseRuntimeTarget targetInput [] include = ([target], None).
Proof.
  unfold targetParses. intros H.
  destruct (parseRuntimeTarget_outcome targetInput [] include)
    as [[t Ht]|[err Herr]]; [eauto|].
  rewrite Herr in H. discriminate.
Qed.

Lemma parseRuntimeTargets_all inputs targets include :
  Forall (targetParses include) inputs →
  ∃ parsed,
    parseRuntimeTargets inputs targets include = (targets ++ parsed, None)
    ∧ Forall2 (λ input target,
                 parseRuntimeTarget input [] include = ([target], None))
              inputs parsed.
Proof.
  revert targets. induction inputs as [|input inputs IH]; intros targets Hall.
  - exists []. simpl. by rewrite app_nil_r.
  - apply Forall_cons in Hall as [Hin Hall].
    apply targetParses_inv in Hin as [t Ht].
    destruct (IH (targets ++ [t]) Hall) as (parsed & Hp & Hf).
    exists (t :: parsed). split; [|by constructor].
    simpl. rewrite parseRuntimeTarget_targets, Ht. simpl.
    rewrite Hp. by rewrite <- app_assoc.
Qed.

(** C6. [ValidateTransformRuntimeTargetOpts]: without an include specifier
    the call fails, whatever the exclude specifiers are, and the target
    spec is untouched.  With at least one include specifier, when every
    specifier of both lists parses, the call succeeds and has appended to
    [Include] the parsed include specifiers and to [Exclude] the parsed
    exclude specifiers, one target per specifier, in order. *)
Theorem ValidateTransformRuntimeTargetOpts_include_required
    (targetInputs targetExcludeInputs : list string) (targetSpec : TargetSpec) :
  ValidateTransformRuntimeTargetOpts [] targetExcludeInputs targetSpec
  = (targetSpec, Some ErrNoTarget)
  ∧ (targetInputs ≠ [] →
     Forall (targetParses true) targetInputs →
     Forall (targetParses false) targetExcludeInputs →
     ∃ included excluded,
       ValidateTransformRuntimeTargetOpts targetInputs targetExcludeInputs
                                          targetSpec
       = (mkTargetSpec (Include targetSpec ++ included)
                       (Exclude targetSpec ++ excluded), None)
       ∧ Forall2 (λ input target,
                    parseRuntimeTarget input [] true = ([target], None))
                 targetInputs included
       ∧ Forall2 (λ input target,
                    parseRuntimeTarget input [] false = ([target], None))
                 targetExcludeInputs excluded).
Proof.
  split; [reflexivity|].
  intros Hne Hinc Hexc.
  destruct (parseRuntimeTargets_all targetInputs (Include targetSpec) true Hinc)
    as (included & Hi & Hfi).
  destruct (parseRuntimeTargets_all targetExcludeInputs (Exclude targetSpec)
              false Hexc) as (excluded & He & Hfe).
  exists included, excluded. split; [|by split].
  unfold ValidateTransformRuntimeTargetOpts.
  rewrite bool_decide_eq_false_2.
  - by rewrite Hi, He.
  - destruct targetInputs; [done|]. unfold len. simpl. lia.
Qed.

Lemma ValidateTransformRuntimeTargetOpts_include_required_witness :
  ["all"; "region=eu,account=CA.*"] ≠ []
  ∧ Forall (targetParses true) ["all"; "region=eu,account=CA.*"]
  ∧ Forall (targetParses false) ["runtime-id=r1"]
  ∧ ∃ included excluded,
      ValidateTransformRuntimeTargetOpts ["all"; "region=eu,account=CA.*"]
        ["runtime-id=r1"] (mkTargetSpec [] [])
      = (mkTargetSpec (Include (mkTargetSpec [] []) ++ included)
                      (Exclude (mkTargetSpec [] []) ++ excluded), None)
      ∧ Forall2 (λ input target,
                   parseRuntimeTarget input [] true = ([target], None))
                ["all"; "region=eu,account=CA.*"] included
      ∧ Forall2 (λ input target,
                   parseRuntimeTarget input [] false = ([target], None))
                ["runtime-id=r1"] excluded.
Proof.
  assert (H0 : ["all"; "region=eu,account=CA.*"] ≠ @nil string) by discriminate.
  assert (H1 : Forall (targetParses true) ["all"; "region=eu,account=CA.*"])
    by (repeat constructor).
  assert (H2 : Forall (targetParses false) ["runtime-id=r1"])
    by (repeat constructor).
  split; [exact H0|]. split; [exact H1|]. split; [exact H2|].
  exact (proj2 (ValidateTransformRuntimeTargetOpts_include_required
                  ["all"; "region=eu,account=CA.*"] ["runtime-id=r1"]
                  (mkTargetSpec [] [])) H0 H1 H2).
Defined.

Example ValidateTransformRuntimeTargetOpts_sample :
  ValidateTransformRuntimeTargetOpts [] ["region=eu"] (mkTargetSpec [] [])
  = (mkTargetSpec [] [], Some ErrNoTarget)
  ∧ ValidateTransformRuntimeTargetOpts ["all"] ["region=eu"] (mkTargetSpec [] [])
    = (mkTargetSpec [mkRuntimeTarget "all" "" "" "" ""]
                    [mkRuntimeTarget "" "" "" "eu" ""], None)
  ∧ ValidateTransformRuntimeTargetOpts ["all"; "plan=azure"] []
      (mkTargetSpec [] [])
    = (mkTargetSpec [mkRuntimeTarget "all" "" "" "" ""] [],
       Some (ErrInvalidSelector "--target" "plan")).
Proof. repeat split; vm_compute; reflexivity. Qed.

(** * Part III: further properties of the store *)

(** X1. On every store built from [NewOperation] by inserts and updates, a
    lookup by id returns an operation that carries this id: for the three
    [Get...OperationByID] and for [GetOperationByID]. *)
Theorem reachable_lookup_returns_requested_id (s : operations)
    (operationID : string) :
  reachable s →
  (∀ op, GetProvisioningOperationByID s operationID = Ok op →
         ID (pOperation op) = operationID)
  ∧ (∀ op, GetDeprovisioningOperationByID s operationID = Ok op →
           ID (dOperation op) = operationID)
  ∧ (∀ op, GetUpgradeKymaOperationByID s operationID = Ok op →
           ID (uOperation op) = operationID)
  ∧ (∀ o, GetOperationByID s operationID = Ok o → ID o = operationID).
Proof.
  intros Hr. destruct (reachable_keyedByID s Hr) as (Hp & Hd & Hu).
  unfold GetProvisioningOperationByID, GetDeprovisioningOperationByID,
    GetUpgradeKymaOperationByID, GetOperationByID.
  specialize (Hp operationID). specialize (Hd operationID).
  specialize (Hu operationID).
  destruct (provisioningOperations s !! operationID) as [p|];
    destruct (deprovisioningOperations s !! operationID) as [d|];
    destruct (upgradeKymaOperations s !! operationID) as [u|];
    repeat split; intros ? [= <-]; auto.
Qed.

Lemma reachable_lookup_returns_requested_id_witness :
  reachable sampleStore
  ∧ (∀ o, GetOperationByID sampleStore "op-2" = Ok o → ID o = "op-2").
Proof.
  split; [exact sampleStore_reachable|].
  exact (proj2 (proj2 (proj2 (reachable_lookup_returns_requested_id
                                sampleStore "op-2" sampleStore_reachable)))).
Defined.



(** X3. Inserts and updates touch one entry of one map: the maps of the two
    other kinds are the same after the call, and so is every entry of the
    kind's own map under another id. *)
Theorem Insert_Update_frame (s : operations) :
  (∀ op, deprovisioningOperations (InsertProvisioningOperation s op).1
         = deprovisioningOperations s
         ∧ upgradeKymaOperations (InsertProvisioningOperation s op).1
           = upgradeKymaOperations s
         ∧ ∀ k, k ≠ ID (pOperation op) →
                provisioningOperations (InsertProvisioningOperation s op).1 !! k
                = provisioningOperations s !! k)
  ∧ (∀ op, provisioningOperations (InsertDeprovisioningOperation s op).1
           = provisioningOperations s
           ∧ upgradeKymaOperations (InsertDeprovisioningOperation s op).1
             = upgradeKymaOperations s
           ∧ ∀ k, k ≠ ID (dOperation op) →
                  deprovisioningOperations (InsertDeprovisioningOperation s op).1 !! k
                  = deprovisioningOperations s !! k)
  ∧ (∀ op, provisioningOperations (InsertUpgradeKymaOperation s op).1
           = provisioningOperations s
           ∧ deprovisioningOperations (InsertUpgradeKymaOperation s op).1
             = deprovisioningOperations s
           ∧ ∀ k, k ≠ ID (uOperation op) →
                  upgradeKymaOperations (InsertUpgradeKymaOperation s op).1 !! k
                  = upgradeKymaOperations s !! k)
  ∧ (∀ op, deprovisioningOperations (UpdateProvisioningOperation s op).1
           = deprovisioningOperations s
           ∧ upgradeKymaOperations (UpdateProvisioningOperation s op).1
             = upgradeKymaOperations s
           ∧ ∀ k, k ≠ ID (pOperation op) →
                  provisioningOperations (UpdateProvisioningOperation s op).1 !! k
                  = provisioningOperations s !! k)
  ∧ (∀ op, provisioningOperations (UpdateDeprovisioningOperation s op).1
           = provisioningOperations s
           ∧ upgradeKymaOperations (UpdateDeprovisioningOperation s op).1
             = upgradeKymaOperations s
           ∧ ∀ k, k ≠ ID (dOperation op) →
                  deprovisioningOperations (UpdateDeprovisioningOperation s op).1 !! k
                  = deprovisioningOperations s !! k)
  ∧ (∀ op, provisioningOperations (UpdateUpgradeKymaOperation s op).1
           = provisioningOperations s
           ∧ deprovisioningOperations (UpdateUpgradeKymaOperation s op).1
             = deprovisioningOperations s
           ∧ ∀ k, k ≠ ID (uOperation op) →
                  upgradeKymaOperations (UpdateUpgradeKymaOperation s op).1 !! k
                  = upgradeKymaOperations s !! k).
Proof.
  repeat split;
    unfold InsertProvisioningOperation, InsertDeprovisioningOperation,
      InsertUpgradeKymaOperation, UpdateProvisioningOperation,
      UpdateDeprovisioningOperation, UpdateUpgradeKymaOperation;
    try (intros k Hk);
    repeat match goal with
           | |- context [match ?m !! ?i with _ => _ end] =>
               destruct (m !! i) eqn:?
           | |- context [bool_decide ?P] => destruct (bool_decide P)
           end;
    simpl; try done; by rewrite lookup_insert_ne.
Qed.

Lemma Insert_Update_frame_witness :
  "op-2" ≠ ID (uOperation sampleU1)
  ∧ upgradeKymaOperations (UpdateUpgradeKymaOperation sampleStore sampleU1).1
      !! "op-2"
    = upgradeKymaOperations sampleStore !! "op-2".
Proof.
  assert (H : "op-2" ≠ ID (uOperation sampleU1)) by discriminate.
  split; [exact H|].
  exact (proj2 (proj2 (proj2 (proj2 (proj2 (proj2 (proj2
           (Insert_Update_frame sampleStore))))) sampleU1)) "op-2" H).
Defined.

Lemma UpdateProvisioningOperation_Ok_inv s op op' :
  (UpdateProvisioningOperation s op).2 = Ok op' →
  op' = bumpedP op
  ∧ (UpdateProvisioningOperation s op).1
    = mkOperations (<[ID (pOperation op) := bumpedP op]> (provisioningOperations s))
                   (deprovisioningOperations s) (upgradeKymaOperations s).
Proof.
  unfold UpdateProvisioningOperation.
  destruct (provisioningOperations s !! _) as [old|]; [|done].
  case_bool_decide; [done|]. simpl. by intros [= <-].
Qed.

Lemma UpdateDeprovisioningOperation_Ok_inv s op op' :
  (UpdateDeprovisioningOperation s op).2 = Ok op' →
  op' = bumpedD op
  ∧ (UpdateDeprovisioningOperation s op).1
    = mkOperations (provisioningOperations s)
                   (<[ID (dOperation op) := bumpedD op]> (deprovisioningOperations s))
                   (upgradeKymaOperations s).
Proof.
  unfold UpdateDeprovisioningOperation.
  destruct (deprovisioningOperations s !! _) as [old|]; [|done].
  case_bool_decide; [done|]. simpl. by intros [= <-].
Qed.

Lemma UpdateUpgradeKymaOperation_Ok_inv s op op' :
  (UpdateUpgradeKymaOperation s op).2 = Ok op' →
  op' = bumpedU op
  ∧ (UpdateUpgradeKymaOperation s op).1
    = mkOperations (provisioningOperations s) (deprovisioningOperations s)
                   (<[ID (uOperation op) := bumpedU op]> (upgradeKymaOperations s)).
Proof.
  unfold UpdateUpgradeKymaOperation.
  destruct (upgradeKymaOperations s !! _) as [old|]; [|done].
  case_bool_decide; [done|]. simpl. by intros [= <-].
Qed.

(** X4. Versions chain: the operation a successful update returns carries
    the version now stored, so submitting it again succeeds again (and
    stores it with the version advanced once more), for each kind. *)
Theorem Update_returned_value_updates_again (s : operations) :
  (∀ op op', (UpdateProvisioningOperation s op).2 = Ok op' →
     ∃ s'', UpdateProvisioningOperation (UpdateProvisioningOperation s op).1 op'
            = (s'', Ok (bumpedP op'))
       ∧ GetProvisioningOperationByID s'' (ID (pOperation op)) = Ok (bumpedP op')
       ∧ Version (pOperation (bumpedP op'))
         = int_add (int_add (Version (pOperation op)) 1) 1)
  ∧ (∀ op op', (UpdateDeprovisioningOperation s op).2 = Ok op' →
     ∃ s'', UpdateDeprovisioningOperation (UpdateDeprovisioningOperation s op).1 op'
            = (s'', Ok (bumpedD op'))
       ∧ GetDeprovisioningOperationByID s'' (ID (dOperation op)) = Ok (bumpedD op')
       ∧ Version (dOperation (bumpedD op'))
         = int_add (int_add (Version (dOperation op)) 1) 1)
  ∧ (∀ op op', (UpdateUpgradeKymaOperation s op).2 = Ok op' →
     ∃ s'', UpdateUpgradeKymaOperation (UpdateUpgradeKymaOperation s op).1 op'
            = (s'', Ok (bumpedU op'))
       ∧ GetUpgradeKymaOperationByID s'' (ID (uOperation op)) = Ok (bumpedU op')
       ∧ Version (uOperation (bumpedU op'))
         = int_add (int_add (Version (uOperation op)) 1) 1).
Proof.
  split; [|split]; intros op op' Hok.
  - apply UpdateProvisioningOperation_Ok_inv in Hok as [-> ->].
    eexists. split.
    + eapply UpdateProvisioningOperation_fresh; simpl;
        [apply lookup_insert_eq | reflexivity].
    + unfold GetProvisioningOperationByID. simpl.
      by rewrite lookup_insert_eq.
  - apply UpdateDeprovisioningOperation_Ok_inv in Hok as [-> ->].
    eexists. split.
    + eapply UpdateDeprovisioningOperation_fresh; simpl;
        [apply lookup_insert_eq | reflexivity].
    + unfold GetDeprovisioningOperationByID. simpl.
      by rewrite lookup_insert_eq.
  - apply UpdateUpgradeKymaOperation_Ok_inv in Hok as [-> ->].
    eexists. split.
    + eapply UpdateUpgradeKymaOperation_fresh; simpl;
        [apply lookup_insert_eq | reflexivity].
    + unfold GetUpgradeKymaOperationByID. simpl.
      by rewrite lookup_insert_eq.
Qed.

Lemma Update_returned_value_updates_again_witness :
  (UpdateUpgradeKymaOperation sampleStore sampleU1).2 = Ok (bumpedU sampleU1)
  ∧ ∃ s'', UpdateUpgradeKymaOperation
             (UpdateUpgradeKymaOperation sampleStore sampleU1).1 (bumpedU sampleU1)
           = (s'', Ok (bumpedU (bumpedU sampleU1)))
      ∧ GetUpgradeKymaOperationByID s'' (ID (uOperation sampleU1))
        = Ok (bumpedU (bumpedU sampleU1))
      ∧ Version (uOperation (bumpedU (bumpedU sampleU1)))
        = int_add (int_add (Version (uOperation sampleU1)) 1) 1.
Proof.
  assert (H : (UpdateUpgradeKymaOperation sampleStore sampleU1).2
              = Ok (bumpedU sampleU1)) by (vm_compute; reflexivity).
  split; [exact H|].
  exact (proj2 (proj2 (Update_returned_value_updates_again sampleStore))
           sampleU1 (bumpedU sampleU1) H).
Defined.

(** X5. Insert does not touch the version: right after the insert of an
    operation under a free id, an update with that same operation succeeds,
    and a second insert of it is refused with [AlreadyExists] although the
    stored version has moved on. *)
Theorem Insert_then_Update (s : operations) :
  (∀ op, provisioningOperations s !! ID (pOperation op) = None →
     ∃ s', UpdateProvisioningOperation (InsertProvisioningOperation s op).1 op
           = (s', Ok (bumpedP op))
       ∧ InsertProvisioningOperation s' op = (s', Some AlreadyExists))
  ∧ (∀ op, deprovisioningOperations s !! ID (dOperation op) = None →
     ∃ s', UpdateDeprovisioningOperation (InsertDeprovisioningOperation s op).1 op
           = (s', Ok (bumpedD op))
       ∧ InsertDeprovisioningOperation s' op = (s', Some AlreadyExists))
  ∧ (∀ op, upgradeKymaOperations s !! ID (uOperation op) = None →
     ∃ s', UpdateUpgradeKymaOperation (InsertUpgradeKymaOperation s op).1 op
           = (s', Ok (bumpedU op))
       ∧ InsertUpgradeKymaOperation s' op = (s', Some AlreadyExists)).
Proof.
  split; [|split]; intros op H.
  - unfold InsertProvisioningOperation at 1. rewrite H. simpl.
    eexists. split.
    + eapply UpdateProvisioningOperation_fresh; simpl;
        [apply lookup_insert_eq | reflexivity].
    + unfold InsertProvisioningOperation. simpl. by rewrite lookup_insert_eq.
  - unfold InsertDeprovisioningOperation at 1. rewrite H. simpl.
    eexists. split.
    + eapply UpdateDeprovisioningOperation_fresh; simpl;
        [apply lookup_insert_eq | reflexivity].
    + unfold InsertDeprovisioningOperation. simpl. by rewrite lookup_insert_eq.
  - unfold InsertUpgradeKymaOperation at 1. rewrite H. simpl.
    eexists. split.
    + eapply UpdateUpgradeKymaOperation_fresh; simpl;
        [apply lookup_insert_eq | reflexivity].
    + unfold InsertUpgradeKymaOperation. simpl. by rewrite lookup_insert_eq.
Qed.

Lemma Insert_then_Update_witness :
  provisioningOperations NewOperation !! ID (pOperation sampleP) = None
  ∧ ∃ s', UpdateProvisioningOperation
            (InsertProvisioningOperation NewOperation sampleP).1 sampleP
          = (s', Ok (bumpedP sampleP))
      ∧ InsertProvisioningOperation s' sampleP = (s', Some AlreadyExists).
Proof.
  assert (H : provisioningOperations NewOperation !! ID (pOperation sampleP)
              = None) by reflexivity.
  split; [exact H|].
  exact (proj1 (Insert_then_Update NewOperation) sampleP H).
Defined.

(** ** Lookups by instance id *)

Lemma find_in_range_values {A} (P : A → Prop) `{∀ x, Decision (P x)}
    (m : gmap string A) :
  match list_find P (range_values m) with
  | Some (_, v) => (∃ k, m !! k = Some v) ∧ P v
  | None => ∀ k v, m !! k = Some v → ¬ P v
  end.
Proof.
  destruct (list_find P (range_values m)) as [[i v]|] eqn:E.
  - apply list_find_Some in E as (Hi & HP & _). split; [|done].
    apply elem_of_range_values. by eapply list_elem_of_lookup_2.
  - apply list_find_None in E. intros k v Hk.
    apply (proj1 (Forall_forall _ _) E). apply elem_of_range_values. eauto.
Qed.

(** X6. The three [Get...OperationByInstanceID]: the call returns [NotFound]
    exactly when no stored operation of the kind has the instance id, and an
    operation it returns is stored and has the instance id. *)
Theorem GetOperationByInstanceID_found_iff_stored (s : operations)
    (instanceID : string) :
  ((GetProvisioningOperationByInstanceID s instanceID = Err NotFound
    ↔ ∀ k op, provisioningOperations s !! k = Some op →
              InstanceID (pOperation op) ≠ instanceID)
   ∧ ∀ op, GetProvisioningOperationByInstanceID s instanceID = Ok op →
           (∃ k, provisioningOperations s !! k = Some op)
           ∧ InstanceID (pOperation op) = instanceID)
  ∧ ((GetDeprovisioningOperationByInstanceID s instanceID = Err NotFound
      ↔ ∀ k op, deprovisioningOperations s !! k = Some op →
                InstanceID (dOperation op) ≠ instanceID)
     ∧ ∀ op, GetDeprovisioningOperationByInstanceID s instanceID = Ok op →
             (∃ k, deprovisioningOperations s !! k = Some op)
             ∧ InstanceID (dOperation op) = instanceID)
  ∧ ((GetUpgradeKymaOperationByInstanceID s instanceID = Err NotFound
      ↔ ∀ k op, upgradeKymaOperations s !! k = Some op →
                InstanceID (uOperation op) ≠ instanceID)
     ∧ ∀ op, GetUpgradeKymaOperationByInstanceID s instanceID = Ok op →
             (∃ k, upgradeKymaOperations s !! k = Some op)
             ∧ InstanceID (uOperation op) = instanceID).
Proof.
  split; [|split].
  - unfold GetProvisioningOperationByInstanceID.
    pose proof (find_in_range_values
                  (λ op, InstanceID (pOperation op) = instanceID)
                  (provisioningOperations s)) as Hf.
    destruct (list_find _ _) as [[i v]|].
    + destruct Hf as [[k Hk] HP]. split.
      * split; [done|]. intros Hno. exfalso. by eapply Hno.
      * by intros op [= <-]; eauto.
    + split; [done|]. intros op [=].
  - unfold GetDeprovisioningOperationByInstanceID.
    pose proof (find_in_range_values
                  (λ op, InstanceID (dOperation op) = instanceID)
                  (deprovisioningOperations s)) as Hf.
    destruct (list_find _ _) as [[i v]|].
    + destruct Hf as [[k Hk] HP]. split.
      * split; [done|]. intros Hno. exfalso. by eapply Hno.
      * by intros op [= <-]; eauto.
    + split; [done|]. intros op [=].
  - unfold GetUpgradeKymaOperationByInstanceID.
    pose proof (find_in_range_values
                  (λ op, InstanceID (uOperation op) = instanceID)
                  (upgradeKymaOperations s)) as Hf.
    destruct (list_find _ _) as [[i v]|].
    + destruct Hf as [[k Hk] HP]. split.
      * split; [done|]. intros Hno. exfalso. by eapply Hno.
      * by intros op [= <-]; eauto.
    + split; [done|]. intros op [=].
Qed.

Lemma GetOperationByInstanceID_found_iff_stored_witness :
  GetUpgradeKymaOperationByInstanceID sampleStore "inst-2" = Ok sampleU2
  ∧ (∃ k, upgradeKymaOperations sampleStore !! k = Some sampleU2)
  ∧ InstanceID (uOperation sampleU2) = "inst-2".
Proof.
  assert (H : GetUpgradeKymaOperationByInstanceID sampleStore "inst-2"
              = Ok sampleU2) by (vm_compute; reflexivity).
  split; [exact H|].
  exact (proj2 (proj2 (proj2 (GetOperationByInstanceID_found_iff_stored
                                sampleStore "inst-2"))) sampleU2 H).
Defined.

(** ** Operations in progress *)

Lemma foldl_append_filter {A B} (P : A → Prop) `{∀ x, Decision (P x)}
    (f : A → B) (vs : list A) (acc : list B) :
  foldl (λ acc v, if bool_decide (P v) then acc ++ [f v] else acc) acc vs
  = acc ++ (f <$> filter P vs).
Proof.
  revert acc. induction vs as [|v vs IH]; intros acc; simpl.
  - by rewrite app_nil_r.
  - rewrite IH, filter_cons. case_bool_decide; case_decide; try done.
    by rewrite <- app_assoc.
Qed.

(** X7. [GetOperationsInProgressByType] never fails.  For the provision and
    the deprovision type it returns the cores of exactly the stored
    operations of that kind whose state is [in progress], one per stored
    entry; for any other type (the upgrade one too) it returns the empty
    list. *)
Theorem GetOperationsInProgressByType_lists_in_progress (s : operations) :
  (∃ ops, GetOperationsInProgressByType s OperationTypeProvision = Ok ops
     ∧ (∀ o, o ∈ ops ↔ ∃ k op, provisioningOperations s !! k = Some op
                                ∧ pOperation op = o ∧ State o = InProgress)
     ∧ length ops
       = length (filter (λ op, State (pOperation op) = InProgress)
                        (map_to_list (provisioningOperations s)).*2))
  ∧ (∃ ops, GetOperationsInProgressByType s OperationTypeDeprovision = Ok ops
       ∧ (∀ o, o ∈ ops ↔ ∃ k op, deprovisioningOperations s !! k = Some op
                                  ∧ dOperation op = o ∧ State o = InProgress)
       ∧ length ops
         = length (filter (λ op, State (dOperation op) = InProgress)
                          (map_to_list (deprovisioningOperations s)).*2))
  ∧ (∀ name, GetOperationsInProgressByType s (OperationTypeOther name) = Ok []).
Proof.
  split; [|split; [|done]].
  - eexists. split; [reflexivity|]. cbn zeta.
    rewrite (foldl_append_filter
               (λ op, State (pOperation op) = InProgress) pOperation).
    rewrite app_nil_l. split; [|by rewrite length_fmap].
    intros o. rewrite list_elem_of_fmap. split.
    + intros (op & -> & Hin). apply list_elem_of_filter in Hin as [Hst Hin].
      apply elem_of_range_values in Hin as [k Hk]. eauto.
    + intros (k & op & Hk & <- & Hst). exists op. split; [done|].
      apply list_elem_of_filter. split; [done|].
      apply elem_of_range_values. eauto.
  - eexists. split; [reflexivity|]. cbn zeta.
    rewrite (foldl_append_filter
               (λ op, State (dOperation op) = InProgress) dOperation).
    rewrite app_nil_l. split; [|by rewrite length_fmap].
    intros o. rewrite list_elem_of_fmap. split.
    + intros (op & -> & Hin). apply list_elem_of_filter in Hin as [Hst Hin].
      apply elem_of_range_values in Hin as [k Hk]. eauto.
    + intros (k & op & Hk & <- & Hst). exists op. split; [done|].
      apply list_elem_of_filter. split; [done|].
      apply elem_of_range_values. eauto.
Qed.

(** ** Statistics by state *)

Lemma int_wrap_add_l a b : int_wrap (int_wrap a + b) = int_wrap (a + b).
Proof.
  unfold int_wrap. f_equal.
  replace ((a + 2 ^ 63) `mod` 2 ^ 64 - 2 ^ 63 + b + 2 ^ 63)%Z
    with ((a + 2 ^ 63) `mod` 2 ^ 64 + b)%Z by lia.
  rewrite Zplus_mod_idemp_l. f_equal. lia.
Qed.

Lemma count_fold {A} (core : A → Operation) (vs : list A)
    (init : gmap string Z) (st : string) :
  foldl (λ result op,
           <[State (core op) :=
               int_add (default 0%Z (result !! State (core op))) 1]> result)
        init vs !! st
  = if decide (filter (λ op, State (core op) = st) vs = [])
    then init !! st
    else Some (int_wrap (default 0%Z (init !! st)
                         + len (filter (λ op, State (core op) = st) vs))).
Proof.
  revert init. induction vs as [|v vs IH]; intros init; [done|].
  cbn [foldl]. rewrite IH, filter_cons. clear IH.
  destruct (decide (State (core v) = st)) as [E|E].
  - rewrite E, lookup_insert_eq. cbn [default id].
    destruct (decide (v :: filter (λ op, State (core op) = st) vs = []))
      as [?|_]; [done|].
    case_decide as En.
    + rewrite En. unfold int_add, len. simpl. done.
    + unfold int_add, len. cbn [length]. rewrite int_wrap_add_l.
      do 2 f_equal. lia.
  - rewrite lookup_insert_ne by done. done.
Qed.

Lemma baseStates_lookup (st : string) :
  (<[InProgress := 0%Z]> (<[Succeeded := 0%Z]> (<[Failed := 0%Z]> ∅))
     : gmap string Z) !! st
  = if decide (st ∈ baseStates) then Some 0%Z else None.
Proof.
  unfold baseStates. destruct (decide (st ∈ _)) as [Hin|Hnin].
  - rewrite !elem_of_cons, elem_of_nil in Hin.
    destruct Hin as [->|[->|[->|[]]]]; vm_compute; reflexivity.
  - rewrite !not_elem_of_cons in Hnin. destruct Hnin as (? & ? & ? & _).
    rewrite !lookup_insert_ne by done. apply lookup_empty.
Qed.

Lemma count_from_base {A} (core : A → Operation) (m : gmap string A)
    (st : string) :
  (Z.of_nat (size m) ≤ max_int)%Z →
  foldl (λ result op,
           <[State (core op) :=
               int_add (default 0%Z (result !! State (core op))) 1]> result)
        (<[InProgress := 0%Z]> (<[Succeeded := 0%Z]> (<[Failed := 0%Z]>
           (∅ : gmap string Z))))
        (range_values m) !! st
  = if decide (st ∈ baseStates ∨ 0 < inState core m st)%Z
    then Some (inState core m st) else None.
Proof.
  intros Hsize. rewrite count_fold, baseStates_lookup. unfold inState.
  set (matching := filter _ (range_values m)).
  assert (Hle : (len matching ≤ max_int)%Z).
  { unfold len, matching. pose proof (length_filter
      (λ op, State (core op) = st) (range_values m)) as Hf.
    unfold range_values in Hf at 2.
    rewrite length_fmap, length_map_to_list in Hf. lia. }
  destruct matching as [|x xs] eqn:Em.
  - rewrite decide_True by done. unfold len; simpl.
    destruct (decide (st ∈ baseStates)).
    + by rewrite decide_True by (by left).
    + rewrite decide_False; [done|]. intros [?|?]; [done|lia].
  - rewrite decide_False by done.
    rewrite (decide_True (P := _ ∨ _)) by (right; unfold len; simpl; lia).
    f_equal.
    assert (Hd : default 0%Z (if decide (st ∈ baseStates) then Some 0%Z else None)
                 = 0%Z) by (by case_decide).
    rewrite Hd, Z.add_0_l. apply int_wrap_id.
    unfold int_range, min_int, max_int, len in *. simpl in *. lia.
Qed.

(** X8. [GetOperationStatsForOrchestration], on a store of at most
    [MaxInt] upgrade-Kyma operations: the map gives, for each state, the
    number of stored upgrade-Kyma operations in that state (of every
    orchestration); the three states in progress, succeeded and failed are
    always present, any other state only when some operation is in it. *)
Theorem GetOperationStatsForOrchestration_counts (s : operations)
    (orchestrationID st : string) :
  (Z.of_nat (size (upgradeKymaOperations s)) ≤ max_int)%Z →
  ((st ∈ baseStates ∨ 0 < inState uOperation (upgradeKymaOperations s) st)%Z →
   GetOperationStatsForOrchestration s orchestrationID !! st
   = Some (inState uOperation (upgradeKymaOperations s) st))
  ∧ (st ∉ baseStates →
     inState uOperation (upgradeKymaOperations s) st = 0%Z →
     GetOperationStatsForOrchestration s orchestrationID !! st = None).
Proof.
  intros Hsize. unfold GetOperationStatsForOrchestration. cbn zeta.
  rewrite (count_from_base uOperation _ st Hsize). split.
  - intros H. by rewrite decide_True.
  - intros Hb Hz. rewrite decide_False; [done|]. intros [?|?]; [done|lia].
Qed.

Lemma GetOperationStatsForOrchestration_counts_witness :
  (Z.of_nat (size (upgradeKymaOperations sampleStore)) ≤ max_int)%Z
  ∧ (Succeeded ∈ baseStates
     ∨ 0 < inState uOperation (upgradeKymaOperations sampleStore) Succeeded)%Z
  ∧ GetOperationStatsForOrchestration sampleStore "orch-1" !! Succeeded
    = Some (inState uOperation (upgradeKymaOperations sampleStore) Succeeded).
Proof.
  assert (H1 : (Z.of_nat (size (upgradeKymaOperations sampleStore)) ≤ max_int)%Z)
    by (vm_compute; discriminate).
  assert (H2 : (Succeeded ∈ baseStates
     ∨ 0 < inState uOperation (upgradeKymaOperations sampleStore) Succeeded)%Z)
    by (right; vm_compute; reflexivity).
  split; [exact H1|]. split; [exact H2|].
  exact (proj1 (GetOperationStatsForOrchestration_counts sampleStore "orch-1"
                  Succeeded H1) H2).
Defined.

Lemma GetOperationStats_Provisioning s :
  Provisioning (GetOperationStats s)
  = foldl (λ result op,
             <[State (pOperation op) :=
                 int_add (default 0%Z (result !! State (pOperation op))) 1]>
               result)
          (<[InProgress := 0%Z]> (<[Succeeded := 0%Z]> (<[Failed := 0%Z]>
             (∅ : gmap string Z))))
          (range_values (provisioningOperations s)).
Proof.
  unfold GetOperationStats. cbn zeta.
  set (r0 := mkOperationStats _ _).
  change (<[InProgress:=0%Z]> _) with (Provisioning r0).
  generalize r0. clear r0.
  generalize (range_values (deprovisioningOperations s)).
  generalize (range_values (provisioningOperations s)).
  intros ps ds. revert ps.
  induction ds as [|d ds IH] using rev_ind; intros ps r0.
  - simpl. revert r0. induction ps as [|p ps IHp]; intros r0; [done|].
    simpl. by rewrite IHp.
  - rewrite foldl_app. simpl. apply IH.
Qed.

Lemma GetOperationStats_Deprovisioning s :
  Deprovisioning (GetOperationStats s)
  = foldl (λ result op,
             <[State (dOperation op) :=
                 int_add (default 0%Z (result !! State (dOperation op))) 1]>
               result)
          (<[InProgress := 0%Z]> (<[Succeeded := 0%Z]> (<[Failed := 0%Z]>
             (∅ : gmap string Z))))
          (range_values (deprovisioningOperations s)).
Proof.
  unfold GetOperationStats. cbn zeta.
  set (r0 := mkOperationStats _ _).
  change (<[InProgress:=0%Z]> _) with (Deprovisioning r0).
  generalize r0. clear r0.
  generalize (range_values (deprovisioningOperations s)).
  generalize (range_values (provisioningOperations s)).
  intros ps ds r0.
  assert (Hp : Deprovisioning
                 (foldl (λ result op,
                    mkOperationStats
                      (<[State (pOperation op) :=
                           int_add (default 0%Z (Provisioning result
                                                   !! State (pOperation op))) 1]>
                         (Provisioning result))
                      (Deprovisioning result)) r0 ps)
               = Deprovisioning r0).
  { revert r0. induction ps as [|p ps IHp]; intros r0; [done|].
    simpl. by rewrite IHp. }
  rewrite <- Hp. clear Hp.
  match goal with
  | |- context [foldl ?f r0 ps] => generalize (foldl f r0 ps)
  end.
  clear r0 ps.
  induction ds as [|d ds IH]; intros r; [done|].
  simpl. by rewrite IH.
Qed.

(** X9. [GetOperationStats], on a store of at most [MaxInt] operations per
    kind: [Provisioning] gives for each state the number of stored
    provisioning operations in it and [Deprovisioning] the number of
    deprovisioning ones; in progress, succeeded and failed are always
    present, another state only when some operation is in it.  The
    upgrade-Kyma operations are not counted. *)
Theorem GetOperationStats_counts (s : operations) (st : string) :
  (Z.of_nat (size (provisioningOperations s)) ≤ max_int)%Z →
  (Z.of_nat (size (deprovisioningOperations s)) ≤ max_int)%Z →
  Provisioning (GetOperationStats s) !! st
  = (if decide (st ∈ baseStates
                ∨ 0 < inState pOperation (provisioningOperations s) st)%Z
     then Some (inState pOperation (provisioningOperations s) st) else None)
  ∧ Deprovisioning (GetOperationStats s) !! st
    = (if decide (st ∈ baseStates
                  ∨ 0 < inState dOperation (deprovisioningOperations s) st)%Z
       then Some (inState dOperation (deprovisioningOperations s) st) else None)
  ∧ ∀ upgrades,
      GetOperationStats (mkOperations (provisioningOperations s)
                                      (deprovisioningOperations s) upgrades)
      = GetOperationStats s.
Proof.
  intros Hp Hd. split; [|split].
  - rewrite GetOperationStats_Provisioning.
    by apply (count_from_base pOperation).
  - rewrite GetOperationStats_Deprovisioning.
    by apply (count_from_base dOperation).
  - reflexivity.
Qed.

Lemma GetOperationStats_counts_witness :
  (Z.of_nat (size (provisioningOperations sampleStore)) ≤ max_int)%Z
  ∧ (Z.of_nat (size (deprovisioningOperations sampleStore)) ≤ max_int)%Z
  ∧ Provisioning (GetOperationStats sampleStore) !! Failed
    = (if decide (Failed ∈ baseStates
                  ∨ 0 < inState pOperation (provisioningOperations sampleStore)
                                Failed)%Z
       then Some (inState pOperation (provisioningOperations sampleStore) Failed)
       else None).
Proof.
  assert (H1 : (Z.of_nat (size (provisioningOperations sampleStore)) ≤ max_int)%Z)
    by (vm_compute; discriminate).
  assert (H2 : (Z.of_nat (size (deprovisioningOperations sampleStore)) ≤ max_int)%Z)
    by (vm_compute; discriminate).
  split; [exact H1|]. split; [exact H2|].
  exact (proj1 (GetOperationStats_counts sampleStore Failed H1 H2)).
Defined.

Example GetOperationStats_sample :
  Provisioning (GetOperationStats sampleStore) !! Succeeded = Some 1%Z
  ∧ Provisioning (GetOperationStats sampleStore) !! Failed = Some 1%Z
  ∧ Provisioning (GetOperationStats sampleStore) !! InProgress = Some 0%Z
  ∧ Deprovisioning (GetOperationStats sampleStore) !! InProgress = Some 1%Z
  ∧ Deprovisioning (GetOperationStats sampleStore) !! "pending" = None.
Proof. repeat split; vm_compute; reflexivity. Qed.

(** ** GetOperationsForIDs on any store *)

Lemma elem_of_collectForIDs {A} (core : A → Operation) (m : gmap string A)
    (opIdList : list string) (ops : list Operation) (o : Operation) :
  o ∈ collectForIDs core m opIdList ops
  ↔ o ∈ ops ∨ ((∃ k v, m !! k = Some v ∧ core v = o) ∧ ID o ∈ opIdList).
Proof.
  unfold collectForIDs. revert ops.
  induction opIdList as [|opID ids IH]; intros ops; simpl.
  - split; [by left|]. intros [?|[_ Hin]]; [done|]. by apply elem_of_nil in Hin.
  - rewrite IH, (inner_loop_filter core), elem_of_app, list_elem_of_fmap.
    split.
    + intros [[?|(v & -> & Hv)]|[Hs Hin]].
      * by left.
      * apply list_elem_of_filter in Hv as [Hid Hv].
        apply elem_of_range_values in Hv as [k Hk].
        right. split; [eauto|]. rewrite Hid. apply list_elem_of_here.
      * right. split; [done|]. by apply list_elem_of_further.
    + intros [?|[(k & v & Hk & <-) Hin]]; [by left; left|].
      apply elem_of_cons in Hin as [Hid|Hin].
      * left; right. exists v. split; [done|].
        apply list_elem_of_filter. split; [done|].
        apply elem_of_range_values. eauto.
      * right. split; [eauto|done].
Qed.

Lemma GetOperationsForIDs_collected s opIdList :
  ∃ ops, (∀ o, o ∈ ops ↔ storedCore s o ∧ ID o ∈ opIdList)
         ∧ GetOperationsForIDs s opIdList
           = if bool_decide (ops = []) then Err NotFound else Ok ops.
Proof.
  unfold GetOperationsForIDs. cbn zeta.
  set (ops := collectForIDs dOperation _ _ _). exists ops. split.
  - intros o. unfold ops. rewrite !elem_of_collectForIDs, elem_of_nil.
    unfold storedCore. tauto.
  - destruct ops as [|o ops']; [done|].
    rewrite bool_decide_eq_false_2 by (unfold len; simpl; lia).
    by rewrite bool_decide_eq_false_2.
Qed.

(** X10. [GetOperationsForIDs] on any store: the call returns [NotFound]
    exactly when no stored operation, of any kind, has its [ID] in the list;
    a list it returns holds exactly the stored operations whose [ID] is in
    the list -- none that was not asked for, and none missing. *)
Theorem GetOperationsForIDs_sound_and_complete (s : operations)
    (opIdList : list string) :
  (GetOperationsForIDs s opIdList = Err NotFound
   ↔ ∀ o, storedCore s o → ID o ∉ opIdList)
  ∧ (∀ ops, GetOperationsForIDs s opIdList = Ok ops →
            ∀ o, o ∈ ops ↔ storedCore s o ∧ ID o ∈ opIdList).
Proof.
  destruct (GetOperationsForIDs_collected s opIdList) as (ops & Hmem & ->).
  destruct ops as [|o0 ops'].
  - rewrite bool_decide_eq_true_2 by done. split; [|done].
    split; [|done]. intros _ o Hs Hin.
    by apply (elem_of_nil o), Hmem.
  - rewrite bool_decide_eq_false_2 by done. split.
    + split; [done|]. intros Hno. exfalso.
      destruct (proj1 (Hmem o0) (list_elem_of_here _ _)) as [Hs Hin].
      by apply (Hno o0).
    + by intros ? [= <-].
Qed.

Lemma GetOperationsForIDs_sound_and_complete_witness :
  GetOperationsForIDs sampleStore ["op-3"; "op-2"]
  = Ok [uOperation sampleU2; pOperation sampleP3]
  ∧ ∀ o, o ∈ [uOperation sampleU2; pOperation sampleP3]
         ↔ storedCore sampleStore o ∧ ID o ∈ ["op-3"; "op-2"].
Proof.
  assert (H : GetOperationsForIDs sampleStore ["op-3"; "op-2"]
              = Ok [uOperation sampleU2; pOperation sampleP3])
    by (vm_compute; reflexivity).
  split; [exact H|].
  exact (proj2 (GetOperationsForIDs_sound_and_complete sampleStore
                  ["op-3"; "op-2"]) _ H).
Defined.

(** X11. On a store keyed by [ID], [GetOperationByID] and
    [GetOperationsForIDs] with the one-element list of that id agree: both
    return [NotFound] or neither does, and the operation the first returns
    is among the operations the second returns. *)
Theorem GetOperationByID_agrees_with_GetOperationsForIDs (s : operations)
    (operationID : string) :
  keyedByID s →
  (GetOperationByID s operationID = Err NotFound
   ↔ GetOperationsForIDs s [operationID] = Err NotFound)
  ∧ (∀ o, GetOperationByID s operationID = Ok o →
          ∃ ops, GetOperationsForIDs s [operationID] = Ok ops ∧ o ∈ ops).
Proof.
  intros (Hp & Hd & Hu).
  destruct (GetOperationsForIDs_collected s [operationID]) as (ops & Hmem & ->).
  assert (Hstored : ∀ o, GetOperationByID s operationID = Ok o → o ∈ ops).
  { intros o Ho. apply Hmem. unfold GetOperationByID in Ho.
    destruct (upgradeKymaOperations s !! operationID) as [u|] eqn:Eu.
    { injection Ho as <-. split; [left; eauto|].
      rewrite (Hu _ _ Eu). apply list_elem_of_here. }
    destruct (deprovisioningOperations s !! operationID) as [d|] eqn:Ed.
    { injection Ho as <-. split; [right; right; eauto|].
      rewrite (Hd _ _ Ed). apply list_elem_of_here. }
    destruct (provisioningOperations s !! operationID) as [p|] eqn:Ep; [|done].
    injection Ho as <-. split; [right; left; eauto|].
    rewrite (Hp _ _ Ep). apply list_elem_of_here. }
  split.
  - split.
    + intros Hnf. rewrite bool_decide_eq_true_2; [done|].
      destruct ops as [|o ops']; [done|]. exfalso.
      destruct (proj1 (Hmem o) (list_elem_of_here _ _)) as [Hs Hin].
      apply list_elem_of_singleton in Hin.
      unfold GetOperationByID in Hnf.
      destruct Hs as [(k & v & Hk & <-)|[(k & v & Hk & <-)|(k & v & Hk & <-)]].
      * rewrite (Hu _ _ Hk) in Hin. subst k. by rewrite Hk in Hnf.
      * rewrite (Hp _ _ Hk) in Hin. subst k. rewrite Hk in Hnf.
        by destruct (deprovisioningOperations s !! _),
                    (upgradeKymaOperations s !! _).
      * rewrite (Hd _ _ Hk) in Hin. subst k. rewrite Hk in Hnf.
        by destruct (upgradeKymaOperations s !! _).
    + intros Hnf. destruct (GetOperationByID s operationID) as [o|e] eqn:E.
      * exfalso. specialize (Hstored o eq_refl).
        destruct ops; [by apply elem_of_nil in Hstored|].
        by rewrite bool_decide_eq_false_2 in Hnf.
      * unfold GetOperationByID in E.
        by destruct (provisioningOperations s !! _),
                    (deprovisioningOperations s !! _),
                    (upgradeKymaOperations s !! _); simplify_eq.
  - intros o Ho. specialize (Hstored o Ho). exists ops.
    split; [|done]. rewrite bool_decide_eq_false_2; [done|].
    intros ->. by apply elem_of_nil in Hstored.
Qed.

Lemma GetOperationByID_agrees_with_GetOperationsForIDs_witness :
  keyedByID sampleStore
  ∧ GetOperationByID sampleStore "op-1" = Ok (uOperation sampleU1)
  ∧ ∃ ops, GetOperationsForIDs sampleStore ["op-1"] = Ok ops
           ∧ uOperation sampleU1 ∈ ops.
Proof.
  assert (Hk : keyedByID sampleStore)
    by exact (reachable_keyedByID _ sampleStore_reachable).
  assert (H : GetOperationByID sampleStore "op-1" = Ok (uOperation sampleU1))
    by (vm_compute; reflexivity).
  split; [exact Hk|]. split; [exact H|].
  exact (proj2 (GetOperationByID_agrees_with_GetOperationsForIDs
                  sampleStore "op-1" Hk) _ H).
Defined.

(** ** The paging loop from any offset *)

Lemma pageLoop_from fuel s sorted offset pageSize i acc :
  (0 ≤ offset)%Z → (0 ≤ pageSize)%Z →
  (offset + pageSize ≤ max_int)%Z →
  (len sorted + offset ≤ max_int)%Z →
  (offset ≤ i ≤ offset + Z.min pageSize (len sorted))%Z →
  (offset + Z.min pageSize (len sorted) - i < Z.of_nat fuel)%Z →
  pageLoop fuel s sorted offset pageSize i acc
  = if decide (i = offset + Z.min pageSize (len sorted)
               ∨ offset + Z.min pageSize (len sorted) ≤ len sorted)%Z
    then Returns (acc ++ (pageItem s
                            <$> take (Z.to_nat (offset + Z.min pageSize (len sorted) - i))
                                     (drop (Z.to_nat i) sorted)))
    else Panics.
Proof.
  intros Hoff Hps Hov1 Hov2. revert i acc.
  induction fuel as [|fuel IH]; intros i acc Hi Hfuel; [lia|].
  cbn [pageLoop]. unfold int_add.
  rewrite (int_wrap_id (offset + pageSize))
    by (unfold int_range, min_int, max_int in *; lia).
  rewrite (int_wrap_id (len sorted + offset))
    by (unfold int_range, min_int, max_int, len in *; lia).
  set (stop := (offset + Z.min pageSize (len sorted))%Z) in *.
  destruct (decide (i = stop)) as [->|Hne].
  - replace ((stop <? offset + pageSize)%Z && (stop <? len sorted + offset)%Z)
      with false by (symmetry; apply andb_false_iff;
                     rewrite !Z.ltb_ge; unfold stop; lia).
    rewrite decide_True by (by left).
    rewrite Z.sub_diag. simpl. by rewrite app_nil_r.
  - replace ((i <? offset + pageSize)%Z && (i <? len sorted + offset)%Z)
      with true by (symmetry; apply andb_true_iff;
                    rewrite !Z.ltb_lt; unfold stop in *; lia).
    unfold index.
    replace (i <? 0)%Z with false by (symmetry; apply Z.ltb_ge; lia).
    destruct (sorted !! Z.to_nat i) as [o|] eqn:Eo.
    + assert (Hlt : (i < len sorted)%Z).
      { apply lookup_lt_Some in Eo. unfold len. lia. }
      rewrite (int_wrap_id (i + 1))
        by (unfold int_range, min_int, max_int in *; lia).
      rewrite IH by lia. fold (pageItem s o).
      replace (Z.to_nat (stop - i)) with (S (Z.to_nat (stop - (i + 1)))) by lia.
      rewrite (drop_S sorted o (Z.to_nat i) Eo).
      replace (Z.to_nat (i + 1)) with (S (Z.to_nat i)) by lia.
      cbn [take fmap list_fmap]. rewrite <- app_assoc. cbn [app].
      destruct (decide (i + 1 = stop ∨ stop ≤ len sorted)%Z) as [Hd|Hd].
      * rewrite decide_True; [done|]. right. lia.
      * rewrite decide_False; [done|]. intros [?|?]; [done|]. apply Hd. by right.
    + apply lookup_ge_None in Eo.
      rewrite decide_False; [done|]. unfold len. intros [?|?]; [done|]. lia.
Qed.

Lemma sorted_length s :
  length (getUpgradeSortedByCreatedAt (upgradeKymaOperations s))
  = size (upgradeKymaOperations s).
Proof.
  rewrite getUpgradeSortedByCreatedAt_perm. unfold range_values.
  by rewrite length_fmap, length_map_to_list.
Qed.

Lemma listByOrchestrationIDFrom_exact s orchestrationID offset pageSize :
  (0 ≤ offset)%Z → (0 ≤ pageSize)%Z →
  (offset + pageSize ≤ max_int)%Z →
  (Z.of_nat (size (upgradeKymaOperations s)) + offset ≤ max_int)%Z →
  listByOrchestrationIDFrom s orchestrationID offset pageSize
  = if decide (Z.min pageSize (Z.of_nat (size (upgradeKymaOperations s))) = 0
               ∨ offset + Z.min pageSize (Z.of_nat (size (upgradeKymaOperations s)))
                 ≤ Z.of_nat (size (upgradeKymaOperations s)))%Z
    then Returns (pageItems s offset
                    (Z.min pageSize (Z.of_nat (size (upgradeKymaOperations s)))),
                  Z.min pageSize (Z.of_nat (size (upgradeKymaOperations s))),
                  Z.of_nat (size (upgradeKymaOperations s)))
    else Panics.
Proof.
  intros Hoff Hps Hov1 Hov2. unfold listByOrchestrationIDFrom. cbn zeta.
  pose proof (sorted_length s) as Hlen.
  set (sorted := getUpgradeSortedByCreatedAt (upgradeKymaOperations s)) in *.
  set (n := Z.of_nat (size (upgradeKymaOperations s))) in *.
  assert (Hn : len sorted = n) by (unfold len, n; lia).
  rewrite (pageLoop_from _ s sorted offset pageSize offset [])
    by (rewrite ?Hn; lia).
  rewrite Hn, app_nil_l.
  replace (offset + Z.min pageSize n - offset)%Z with (Z.min pageSize n) by lia.
  destruct (decide (offset = offset + Z.min pageSize n ∨ _)%Z) as [Hd|Hd].
  - rewrite decide_True by lia. unfold pageItems. fold sorted.
    do 2 f_equal.
    + f_equal. unfold len. rewrite length_fmap, length_take, length_drop. lia.
    + unfold len, range_values, n.
      by rewrite length_fmap, length_map_to_list.
  - rewrite decide_False by lia. done.
Qed.

Lemma ConvertPageAndPageSizeToOffset_later_page pageSize page :
  (2 ≤ page)%Z → (0 ≤ pageSize)%Z → (page * pageSize ≤ max_int)%Z →
  ConvertPageAndPageSizeToOffset pageSize page = ((page - 1) * pageSize)%Z.
Proof.
  intros Hp Hps Hov. unfold ConvertPageAndPageSizeToOffset.
  replace (page <? 2)%Z with false by (symmetry; apply Z.ltb_ge; lia).
  unfold int_sub, int_mul.
  assert (0 ≤ page * pageSize)%Z by nia.
  assert (pageSize ≤ page * pageSize)%Z by nia.
  rewrite (int_wrap_id (page * pageSize))
    by (unfold int_range, min_int, max_int in *; lia).
  rewrite int_wrap_id by (unfold int_range, min_int, max_int in *; lia).
  lia.
Qed.

(** X12. [ListUpgradeKymaOperationsByOrchestrationID] for a page from the
    second on, a page size of at least 1 and a store with at least one
    upgrade-Kyma operation (sizes within [int]): the call returns only when
    the whole page lies inside the list, [page * pageSize <= n]; it then
    returns [pageSize] items and the size [n] of the whole map as total.
    When the page reaches past the end, the last, partly filled page too,
    the call panics. *)
Theorem ListUpgradeKymaOperationsByOrchestrationID_later_pages
    (s : operations) (orchestrationID : string) (pageSize page : Z) :
  (2 ≤ page)%Z → (1 ≤ pageSize)%Z →
  (1 ≤ Z.of_nat (size (upgradeKymaOperations s)))%Z →
  (Z.of_nat (size (upgradeKymaOperations s)) + page * pageSize ≤ max_int)%Z →
  ((page * pageSize ≤ Z.of_nat (size (upgradeKymaOperations s)))%Z →
   ListUpgradeKymaOperationsByOrchestrationID s orchestrationID pageSize page
   = Returns (pageItems s ((page - 1) * pageSize) pageSize, pageSize,
              Z.of_nat (size (upgradeKymaOperations s))))
  ∧ ((Z.of_nat (size (upgradeKymaOperations s)) < page * pageSize)%Z →
     ListUpgradeKymaOperationsByOrchestrationID s orchestrationID pageSize page
     = Panics).
Proof.
  intros Hp Hps Hn Hov.
  unfold ListUpgradeKymaOperationsByOrchestrationID.
  set (n := Z.of_nat (size (upgradeKymaOperations s))) in *.
  assert (pageSize ≤ (page - 1) * pageSize)%Z by nia.
  rewrite ConvertPageAndPageSizeToOffset_later_page by lia.
  rewrite listByOrchestrationIDFrom_exact by (fold n; lia).
  fold n. split; intros Hcmp.
  - rewrite decide_True by lia.
    by replace (Z.min pageSize n) with pageSize by lia.
  - rewrite decide_False; [done|]. lia.
Qed.

Lemma ListUpgradeKymaOperationsByOrchestrationID_later_pages_witness :
  (2 ≤ 2)%Z ∧ (1 ≤ 1)%Z
  ∧ (1 ≤ Z.of_nat (size (upgradeKymaOperations sampleStore)))%Z
  ∧ (Z.of_nat (size (upgradeKymaOperations sampleStore)) + 2 * 1 ≤ max_int)%Z
  ∧ (2 * 1 ≤ Z.of_nat (size (upgradeKymaOperations sampleStore)))%Z
  ∧ ListUpgradeKymaOperationsByOrchestrationID sampleStore "orch-1" 1 2
    = Returns (pageItems sampleStore ((2 - 1) * 1) 1, 1%Z,
               Z.of_nat (size (upgradeKymaOperations sampleStore))).
Proof.
  assert (H1 : (2 ≤ 2)%Z) by lia.
  assert (H2 : (1 ≤ 1)%Z) by lia.
  assert (H3 : (1 ≤ Z.of_nat (size (upgradeKymaOperations sampleStore)))%Z)
    by (vm_compute; discriminate).
  assert (H4 : (Z.of_nat (size (upgradeKymaOperations sampleStore)) + 2 * 1
                ≤ max_int)%Z) by (vm_compute; discriminate).
  assert (H5 : (2 * 1 ≤ Z.of_nat (size (upgradeKymaOperations sampleStore)))%Z)
    by (vm_compute; discriminate).
  repeat (split; [assumption|]).
  exact (proj1 (ListUpgradeKymaOperationsByOrchestrationID_later_pages
                  sampleStore "orch-1" 1 2 H1 H2 H3 H4) H5).
Defined.

Lemma first_page_returns (s : operations) (orchestrationID : string)
    (pageSize page : Z) :
  (page < 2)%Z →
  (0 ≤ pageSize ≤ max_int)%Z →
  (Z.of_nat (size (upgradeKymaOperations s)) ≤ max_int)%Z →
  ListUpgradeKymaOperationsByOrchestrationID s orchestrationID pageSize page
  = Returns (pageItem s
               <$> take (Z.to_nat pageSize)
                        (getUpgradeSortedByCreatedAt (upgradeKymaOperations s)),
             Z.min pageSize (Z.of_nat (size (upgradeKymaOperations s))),
             Z.of_nat (size (upgradeKymaOperations s))).
Proof.
  intros Hp Hps Hn.
  unfold ListUpgradeKymaOperationsByOrchestrationID,
    ConvertPageAndPageSizeToOffset.
  replace (page <? 2)%Z with true by (symmetry; apply Z.ltb_lt; lia).
  rewrite listByOrchestrationIDFrom_exact by lia.
  rewrite decide_True by lia.
  unfold pageItems. rewrite drop_0. do 3 f_equal.
  pose proof (sorted_length s) as Hlen.
  destruct (decide (pageSize ≤ Z.of_nat (size (upgradeKymaOperations s)))%Z).
  - by replace (Z.min pageSize _) with pageSize by lia.
  - rewrite !take_ge by lia. done.
Qed.

(** X13. [ListUpgradeKymaOperationsByOrchestrationID] for the first page
    ([page] below 2) and a page size from 0 on: the call returns, with as
    many items as the page size and the store allow, and the size of the
    whole map as total.  Item [i] is the entry of the map under the
    [OrchestrationID] of the [i]-th operation in [CreatedAt] order, the zero
    operation when the map has no such key; the orchestration id passed in
    plays no part. *)
Theorem ListUpgradeKymaOperationsByOrchestrationID_first_page_items
    (s : operations) (orchestrationID : string) (pageSize page : Z) :
  (page < 2)%Z →
  (0 ≤ pageSize ≤ max_int)%Z →
  (Z.of_nat (size (upgradeKymaOperations s)) ≤ max_int)%Z →
  ListUpgradeKymaOperationsByOrchestrationID s orchestrationID pageSize page
  = Returns (pageItem s
               <$> take (Z.to_nat pageSize)
                        (getUpgradeSortedByCreatedAt (upgradeKymaOperations s)),
             Z.min pageSize (Z.of_nat (size (upgradeKymaOperations s))),
             Z.of_nat (size (upgradeKymaOperations s))).
Proof.
  intros Hp Hps Hn.
  unfold ListUpgradeKymaOperationsByOrchestrationID,
    ConvertPageAndPageSizeToOffset.
  replace (page <? 2)%Z with true by (symmetry; apply Z.ltb_lt; lia).
  rewrite listByOrchestrationIDFrom_exact by lia.
  rewrite decide_True by lia.
  unfold pageItems. rewrite drop_0.
  assert (Htake : take (Z.to_nat (Z.min pageSize
                          (Z.of_nat (size (upgradeKymaOperations s)))))
                       (getUpgradeSortedByCreatedAt (upgradeKymaOperations s))
                  = take (Z.to_nat pageSize)
                         (getUpgradeSortedByCreatedAt (upgradeKymaOperations s))).
  { pose proof (sorted_length s) as Hlen.
    destruct (decide (pageSize ≤ Z.of_nat (size (upgradeKymaOperations s)))%Z).
    - by replace (Z.min pageSize _) with pageSize by lia.
    - rewrite !take_ge by lia. done. }
  by rewrite Htake.
Qed.

Lemma ListUpgradeKymaOperationsByOrchestrationID_first_page_items_witness :
  (1 < 2)%Z ∧ (0 ≤ 10 ≤ max_int)%Z
  ∧ (Z.of_nat (size (upgradeKymaOperations sampleStore)) ≤ max_int)%Z
  ∧ ListUpgradeKymaOperationsByOrchestrationID sampleStore "orch-1" 10 1
    = Returns (pageItem sampleStore
                 <$> take (Z.to_nat 10)
                          (getUpgradeSortedByCreatedAt
                             (upgradeKymaOperations sampleStore)),
               Z.min 10 (Z.of_nat (size (upgradeKymaOperations sampleStore))),
               Z.of_nat (size (upgradeKymaOperations sampleStore))).
Proof.
  assert (H1 : (1 < 2)%Z) by lia.
  assert (H2 : (0 ≤ 10 ≤ max_int)%Z) by (vm_compute; split; discriminate).
  assert (H3 : (Z.of_nat (size (upgradeKymaOperations sampleStore)) ≤ max_int)%Z)
    by (vm_compute; discriminate).
  repeat (split; [assumption|]).
  exact (ListUpgradeKymaOperationsByOrchestrationID_first_page_items
           sampleStore "orch-1" 10 1 H1 H2 H3).
Defined.

(** X24. When no stored upgrade-Kyma operation is filed under a key that
    is the orchestration id of a stored one (operation ids and orchestration
    ids being different things, the usual case), every item of the first
    page is the zero operation: the listing returns no stored data at
    all. *)
Theorem ListUpgradeKymaOperationsByOrchestrationID_zero_items
    (s : operations) (orchestrationID : string) (pageSize page : Z) :
  (∀ k u, upgradeKymaOperations s !! k = Some u →
          upgradeKymaOperations s !! OrchestrationID (uOperation u) = None) →
  (page < 2)%Z →
  (0 ≤ pageSize ≤ max_int)%Z →
  (Z.of_nat (size (upgradeKymaOperations s)) ≤ max_int)%Z →
  ∃ items total,
    ListUpgradeKymaOperationsByOrchestrationID s orchestrationID pageSize page
    = Returns (items, len items, total)
    ∧ len items = Z.min pageSize (Z.of_nat (size (upgradeKymaOperations s)))
    ∧ Forall (λ item, item = zeroUpgradeKymaOperation) items.
Proof.
  intros Hkeys Hp Hps Hn.
  rewrite (first_page_returns s orchestrationID pageSize page Hp Hps Hn).
  pose proof (sorted_length s) as Hlen.
  set (sorted := getUpgradeSortedByCreatedAt (upgradeKymaOperations s)) in *.
  assert (Hl : len (pageItem s <$> take (Z.to_nat pageSize) sorted)
               = Z.min pageSize (Z.of_nat (size (upgradeKymaOperations s)))).
  { unfold len. rewrite length_fmap, length_take. lia. }
  eexists _, _. split; [by rewrite Hl|]. split; [exact Hl|].
  apply Forall_fmap, Forall_forall. intros o Ho.
  apply (subseteq_take (Z.to_nat pageSize) sorted) in Ho.
  assert (Hin : o ∈ range_values (upgradeKymaOperations s)).
  { unfold sorted in Ho. by rewrite getUpgradeSortedByCreatedAt_perm in Ho. }
  apply elem_of_range_values in Hin as [k Hk].
  unfold pageItem. cbn. by rewrite (Hkeys k o Hk).
Qed.

Lemma ListUpgradeKymaOperationsByOrchestrationID_zero_items_witness :
  (∀ k u, upgradeKymaOperations sampleStore !! k = Some u →
          upgradeKymaOperations sampleStore !! OrchestrationID (uOperation u)
          = None)
  ∧ (1 < 2)%Z ∧ (0 ≤ 10 ≤ max_int)%Z
  ∧ (Z.of_nat (size (upgradeKymaOperations sampleStore)) ≤ max_int)%Z
  ∧ ∃ items total,
      ListUpgradeKymaOperationsByOrchestrationID sampleStore "orch-1" 10 1
      = Returns (items, len items, total)
      ∧ len items
        = Z.min 10 (Z.of_nat (size (upgradeKymaOperations sampleStore)))
      ∧ Forall (λ item, item = zeroUpgradeKymaOperation) items.
Proof.
  assert (H0 : ∀ k u, upgradeKymaOperations sampleStore !! k = Some u →
               upgradeKymaOperations sampleStore
                 !! OrchestrationID (uOperation u) = None).
  { intros k u Hk.
    assert (Hin : u ∈ range_values (upgradeKymaOperations sampleStore))
      by (apply elem_of_range_values; eauto).
    change (range_values (upgradeKymaOperations sampleStore))
      with [sampleU1; sampleU2] in Hin.
    apply elem_of_cons in Hin as [->|Hin]; [vm_compute; reflexivity|].
    apply list_elem_of_singleton in Hin as ->. vm_compute; reflexivity. }
  assert (H1 : (1 < 2)%Z) by lia.
  assert (H2 : (0 ≤ 10 ≤ max_int)%Z) by (vm_compute; split; discriminate).
  assert (H3 : (Z.of_nat (size (upgradeKymaOperations sampleStore)) ≤ max_int)%Z)
    by (vm_compute; discriminate).
  repeat (split; [assumption|]).
  exact (ListUpgradeKymaOperationsByOrchestrationID_zero_items
           sampleStore "orch-1" 10 1 H0 H1 H2 H3).
Defined.

(** * Part IV: further properties of the CLI options *)

(** ** ValidateGlobalOpts *)



Example ValidateGlobalOpts_sample :
  ValidateGlobalOpts (<["oidc-client-id" := "kcp"]>
                        (<["keb-api-url" := "https://keb"]> ∅))
  = Some "missing required options: oidc-issuer-url, oidc-client-secret. See kcp --help for more information"
  ∧ ValidateGlobalOpts
      (<["oidc-issuer-url" := "https://issuer"]>
         (<["oidc-client-id" := "kcp"]>
            (<["oidc-client-secret" := "s3cret"]>
               (<["keb-api-url" := "https://keb"]> ∅)))) = None.
Proof. split; vm_compute; reflexivity. Qed.

(** ** Splitting specifiers and selectors *)

Lemma Split_free sep a : free sep a → Split a sep = [a].
Proof.
  induction a as [|c a IH]; [done|]. intros [Hc Ha]. cbn [Split].
  rewrite (proj2 (Ascii.eqb_neq c sep) Hc). by rewrite (IH Ha).
Qed.

Lemma Split_app sep a b :
  free sep a → Split (a +:+ String sep b) sep = a :: Split b sep.
Proof.
  induction a as [|c a IH].
  - intros _. change ("" +:+ String sep b) with (String sep b).
    cbn [Split]. by rewrite Ascii.eqb_refl.
  - intros [Hc Ha].
    change (String c a +:+ String sep b) with (String c (a +:+ String sep b)).
    cbn [Split].
    rewrite (proj2 (Ascii.eqb_neq c sep) Hc). by rewrite (IH Ha).
Qed.

Lemma free_app sep a b : free sep a → free sep b → free sep (a +:+ b).
Proof.
  induction a as [|c a IH]; [done|]. intros [Hc Ha] Hb.
  change (String c a +:+ b) with (String c (a +:+ b)). cbn [free]. auto.
Qed.

Lemma selector_key_value k v rest :
  free "="%char k → free "="%char v →
  (selectorKeyOf (k +:+ String "="%char v) = k
   ∧ selectorValueOf (k +:+ String "="%char v) = v)
  ∧ (selectorKeyOf (k +:+ String "="%char (v +:+ String "="%char rest)) = k
     ∧ selectorValueOf (k +:+ String "="%char (v +:+ String "="%char rest)) = v).
Proof.
  intros Hk Hv. unfold selectorKeyOf, selectorValueOf.
  rewrite !Split_app by done. rewrite (Split_free _ v Hv).
  repeat split; try done.
  pose proof (Split_not_nil rest "="%char).
  destruct (Split rest "="%char) as [|p ps]; [done|].
  unfold len. cbn [length].
  replace (1 <? Z.of_nat (S (S (S (length ps)))))%Z with true
    by (symmetry; apply Z.ltb_lt; lia).
  done.
Qed.

Lemma parseSelector_key_value include flagName target sel sel' :
  selectorKeyOf sel = selectorKeyOf sel' →
  selectorValueOf sel = selectorValueOf sel' →
  parseSelector include flagName target sel
  = parseSelector include flagName target sel'.
Proof. intros Hk Hv. unfold parseSelector. by rewrite Hk, Hv. Qed.

Lemma free_comma_selector key value :
  free ","%char key → free ","%char value →
  free ","%char (key +:+ String "="%char value).
Proof.
  intros Hk Hv. apply free_app; [done|]. cbn [free]. split; [discriminate|done].
Qed.

(** X15. In a selector [key=value=rest] what follows the second [=] is
    dropped without an error: the specifier is parsed exactly as
    [key=value] (key and value without [=], and no comma anywhere). *)
Theorem parseRuntimeTarget_drops_after_second_equals
    (key value rest : string) (targets : list RuntimeTarget) (include : bool) :
  free "="%char key → free "="%char value →
  free ","%char key → free ","%char value → free ","%char rest →
  parseRuntimeTarget (key +:+ String "="%char (value +:+ String "="%char rest))
                     targets include
  = parseRuntimeTarget (key +:+ String "="%char value) targets include.
Proof.
  intros Hk Hv Hck Hcv Hcr. unfold parseRuntimeTarget.
  rewrite (Split_free ","%char (key +:+ String "="%char value))
    by by apply free_comma_selector.
  rewrite (Split_free ","%char
             (key +:+ String "="%char (value +:+ String "="%char rest)))
    by (apply free_comma_selector; [done|]; by apply free_comma_selector).
  cbn [parseSelectors].
  destruct (selector_key_value key value rest Hk Hv) as [[K1 V1] [K2 V2]].
  rewrite (parseSelector_key_value include _ _
             (key +:+ String "="%char (value +:+ String "="%char rest))
             (key +:+ String "="%char value)); [done|congruence..].
Qed.

Lemma parseRuntimeTarget_drops_after_second_equals_witness :
  free "="%char "region" ∧ free "="%char "eu"
  ∧ free ","%char "region" ∧ free ","%char "eu" ∧ free ","%char "x"
  ∧ parseRuntimeTarget ("region" +:+ String "="%char ("eu" +:+ String "="%char "x"))
                       [] true
    = parseRuntimeTarget ("region" +:+ String "="%char "eu") [] true.
Proof.
  assert (H1 : free "="%char "region") by (cbn; repeat split; discriminate).
  assert (H2 : free "="%char "eu") by (cbn; repeat split; discriminate).
  assert (H3 : free ","%char "region") by (cbn; repeat split; discriminate).
  assert (H4 : free ","%char "eu") by (cbn; repeat split; discriminate).
  assert (H5 : free ","%char "x") by (cbn; repeat split; discriminate).
  repeat (split; [assumption|]).
  exact (parseRuntimeTarget_drops_after_second_equals
           "region" "eu" "x" [] true H1 H2 H3 H4 H5).
Defined.

Lemma checkRuntimeTargetSelector_value selectorKey selectorValue flagName :
  selectorValue ≠ "" →
  checkRuntimeTargetSelector selectorKey selectorValue flagName = None.
Proof. intros H. by apply checkRuntimeTargetSelector_None. Qed.

(** What each of the four keys does to the target under construction. *)
Lemma parseSelector_sets include flagName target value :
  free "="%char value → value ≠ "" →
  parseSelector include flagName target ("account" +:+ String "="%char value)
  = inr (mkRuntimeTarget (Target target) value (SubAccount target)
           (Region target) (RuntimeID target))
  ∧ parseSelector include flagName target ("subaccount" +:+ String "="%char value)
    = inr (mkRuntimeTarget (Target target) (GlobalAccount target) value
             (Region target) (RuntimeID target))
  ∧ parseSelector include flagName target ("region" +:+ String "="%char value)
    = inr (mkRuntimeTarget (Target target) (GlobalAccount target)
             (SubAccount target) value (RuntimeID target))
  ∧ parseSelector include flagName target ("runtime-id" +:+ String "="%char value)
    = inr (mkRuntimeTarget (Target target) (GlobalAccount target)
             (SubAccount target) (Region target) value).
Proof.
  intros Hv Hne.
  assert (Hlit : ∀ key, free "="%char key →
            selectorKeyOf (key +:+ String "="%char value) = key
            ∧ selectorValueOf (key +:+ String "="%char value) = value).
  { intros key Hk. apply (selector_key_value key value "" Hk Hv). }
  repeat split; unfold parseSelector;
    match goal with
    | |- context [selectorKeyOf (?k +:+ _)] =>
        destruct (Hlit k) as [-> ->]; [cbn; repeat split; discriminate|]
    end;
    cbn [String.eqb Ascii.eqb Bool.eqb TargetAll targetAccount targetSubaccount
         targetRegion targetRuntimeID andb];
    by rewrite checkRuntimeTargetSelector_value.
Qed.

(** X16. A specifier that names the four keys once each, as
    [account=A,subaccount=S,region=R,runtime-id=I] with non-empty values
    free of [,] and [=], is accepted in both positions and yields one target
    with exactly these four values and no [all] mark. *)
Theorem parseRuntimeTarget_four_selectors (account subaccount region runtimeID : string)
    (targets : list RuntimeTarget) (include : bool) :
  account ≠ "" → subaccount ≠ "" → region ≠ "" → runtimeID ≠ "" →
  free ","%char account → free ","%char subaccount →
  free ","%char region → free ","%char runtimeID →
  free "="%char account → free "="%char subaccount →
  free "="%char region → free "="%char runtimeID →
  parseRuntimeTarget
    ("account=" +:+ account +:+ ",subaccount=" +:+ subaccount
     +:+ ",region=" +:+ region +:+ ",runtime-id=" +:+ runtimeID)
    targets include
  = (targets ++ [mkRuntimeTarget "" account subaccount region runtimeID], None).
Proof.
  intros Na Ns Nr Ni Ca Cs Cr Ci Ea Es Er Ei.
  change ("account=" +:+ account +:+ ",subaccount=" +:+ subaccount
          +:+ ",region=" +:+ region +:+ ",runtime-id=" +:+ runtimeID)
    with (("account" +:+ String "="%char account)
          +:+ String ","%char
            (("subaccount" +:+ String "="%char subaccount)
             +:+ String ","%char
               (("region" +:+ String "="%char region)
                +:+ String ","%char
                  ("runtime-id" +:+ String "="%char runtimeID)))).
  unfold parseRuntimeTarget.
  rewrite !Split_app
    by (apply free_comma_selector; [cbn; repeat split; discriminate | done]).
  rewrite Split_free
    by (apply free_comma_selector; [cbn; repeat split; discriminate | done]).
  cbn [parseSelectors].
  set (flagName := if include then _ else _).
  rewrite (proj1 (parseSelector_sets include flagName _ account Ea Na)).
  rewrite (proj1 (proj2 (parseSelector_sets include flagName _ subaccount Es Ns))).
  rewrite (proj1 (proj2 (proj2
             (parseSelector_sets include flagName _ region Er Nr)))).
  rewrite (proj2 (proj2 (proj2
             (parseSelector_sets include flagName _ runtimeID Ei Ni)))).
  done.
Qed.

Lemma parseRuntimeTarget_four_selectors_witness :
  "CA.*" ≠ "" ∧ "sub-1" ≠ "" ∧ "europe|eu-" ≠ "" ∧ "r-1" ≠ ""
  ∧ free ","%char "CA.*" ∧ free ","%char "sub-1"
  ∧ free ","%char "europe|eu-" ∧ free ","%char "r-1"
  ∧ free "="%char "CA.*" ∧ free "="%char "sub-1"
  ∧ free "="%char "europe|eu-" ∧ free "="%char "r-1"
  ∧ parseRuntimeTarget
      ("account=" +:+ "CA.*" +:+ ",subaccount=" +:+ "sub-1"
       +:+ ",region=" +:+ "europe|eu-" +:+ ",runtime-id=" +:+ "r-1")
      [] false
    = ([] ++ [mkRuntimeTarget "" "CA.*" "sub-1" "europe|eu-" "r-1"], None).
Proof.
  assert (N1 : "CA.*" ≠ "") by discriminate.
  assert (N2 : "sub-1" ≠ "") by discriminate.
  assert (N3 : "europe|eu-" ≠ "") by discriminate.
  assert (N4 : "r-1" ≠ "") by discriminate.
  assert (C1 : free ","%char "CA.*") by (cbn; repeat split; discriminate).
  assert (C2 : free ","%char "sub-1") by (cbn; repeat split; discriminate).
  assert (C3 : free ","%char "europe|eu-") by (cbn; repeat split; discriminate).
  assert (C4 : free ","%char "r-1") by (cbn; repeat split; discriminate).
  assert (E1 : free "="%char "CA.*") by (cbn; repeat split; discriminate).
  assert (E2 : free "="%char "sub-1") by (cbn; repeat split; discriminate).
  assert (E3 : free "="%char "europe|eu-") by (cbn; repeat split; discriminate).
  assert (E4 : free "="%char "r-1") by (cbn; repeat split; discriminate).
  repeat (split; [assumption|]).
  exact (parseRuntimeTarget_four_selectors "CA.*" "sub-1" "europe|eu-" "r-1"
           [] false N1 N2 N3 N4 C1 C2 C3 C4 E1 E2 E3 E4).
Defined.

(** X17. A key given twice in one specifier is not an error: the later
    value replaces the earlier one, so [key=v1,key=v2] is parsed as
    [key=v2], for each of the four keys. *)
Theorem parseRuntimeTarget_last_value_wins (key v1 v2 : string)
    (targets : list RuntimeTarget) (include : bool) :
  key ∈ [targetAccount; targetSubaccount; targetRegion; targetRuntimeID] →
  v1 ≠ "" → v2 ≠ "" →
  free ","%char v1 → free "="%char v1 →
  free ","%char v2 → free "="%char v2 →
  parseRuntimeTarget ((key +:+ String "="%char v1)
                      +:+ String ","%char (key +:+ String "="%char v2))
                     targets include
  = parseRuntimeTarget (key +:+ String "="%char v2) targets include.
Proof.
  intros Hkey N1 N2 C1 E1 C2 E2.
  rewrite !elem_of_cons, elem_of_nil in Hkey.
  unfold parseRuntimeTarget.
  set (flagName := if include then _ else _).
  destruct Hkey as [->|[->|[->|[->|[]]]]];
    (rewrite Split_app
       by (apply free_comma_selector; [cbn; repeat split; discriminate | done]));
    (rewrite !Split_free
       by (apply free_comma_selector; [cbn; repeat split; discriminate | done]));
    cbn [parseSelectors];
    unfold targetAccount, targetSubaccount, targetRegion, targetRuntimeID.
  - rewrite (proj1 (parseSelector_sets include flagName _ v1 E1 N1)).
    do 2 rewrite (proj1 (parseSelector_sets include flagName _ v2 E2 N2)).
    done.
  - rewrite (proj1 (proj2 (parseSelector_sets include flagName _ v1 E1 N1))).
    do 2 rewrite (proj1 (proj2 (parseSelector_sets include flagName _ v2 E2 N2))).
    done.
  - rewrite (proj1 (proj2 (proj2
               (parseSelector_sets include flagName _ v1 E1 N1)))).
    do 2 rewrite (proj1 (proj2 (proj2
                    (parseSelector_sets include flagName _ v2 E2 N2)))).
    done.
  - rewrite (proj2 (proj2 (proj2
               (parseSelector_sets include flagName _ v1 E1 N1)))).
    do 2 rewrite (proj2 (proj2 (proj2
                    (parseSelector_sets include flagName _ v2 E2 N2)))).
    done.
Qed.

Lemma parseRuntimeTarget_last_value_wins_witness :
  "region" ∈ [targetAccount; targetSubaccount; targetRegion; targetRuntimeID]
  ∧ "eu" ≠ "" ∧ "us" ≠ ""
  ∧ free ","%char "eu" ∧ free "="%char "eu"
  ∧ free ","%char "us" ∧ free "="%char "us"
  ∧ parseRuntimeTarget (("region" +:+ String "="%char "eu")
                        +:+ String ","%char ("region" +:+ String "="%char "us"))
                       [] true
    = parseRuntimeTarget ("region" +:+ String "="%char "us") [] true.
Proof.
  assert (H0 : "region" ∈ [targetAccount; targetSubaccount; targetRegion;
                           targetRuntimeID])
    by (apply list_elem_of_further, list_elem_of_further, list_elem_of_here).
  assert (N1 : "eu" ≠ "") by discriminate.
  assert (N2 : "us" ≠ "") by discriminate.
  assert (C1 : free ","%char "eu") by (cbn; repeat split; discriminate).
  assert (E1 : free "="%char "eu") by (cbn; repeat split; discriminate).
  assert (C2 : free ","%char "us") by (cbn; repeat split; discriminate).
  assert (E2 : free "="%char "us") by (cbn; repeat split; discriminate).
  repeat (split; [assumption|]).
  exact (parseRuntimeTarget_last_value_wins "region" "eu" "us" [] true
           H0 N1 N2 C1 E1 C2 E2).
Defined.

(** ** ValidateTransformRuntimeTargetOpts after an error *)




(** * Part V: properties of the converter *)

(** ** NewDTO *)

(** X19. The shoot name [NewDTO] reports is the second dot-separated label
    of the instance's dashboard URL: for a URL [host.shoot] or
    [host.shoot.rest] (no dot in [host] and [shoot]) it is [shoot], and for
    a URL without a dot it stays empty. *)
Theorem NewDTO_ShootName {E : Type}
    (GetProvisioningParameters : inst.Instance → E + ProvisioningParameters)
    (c : converter) (instance : inst.Instance) (dto : pkg.RuntimeDTO) :
  NewDTO GetProvisioningParameters c instance = (dto, None) →
  (∀ host shoot,
     free "."%char host → free "."%char shoot →
     inst.DashboardURL instance = host +:+ String "."%char shoot →
     pkg.ShootName dto = shoot)
  ∧ (∀ host shoot rest,
       free "."%char host → free "."%char shoot →
       inst.DashboardURL instance
       = host +:+ String "."%char (shoot +:+ String "."%char rest) →
       pkg.ShootName dto = shoot)
  ∧ (free "."%char (inst.DashboardURL instance) → pkg.ShootName dto = "").
Proof.
  unfold NewDTO, setRegionOrDefault.
  destruct (GetProvisioningParameters instance) as [e|pp]; [done|].
  intros Hdto.
  assert (Hshoot : pkg.ShootName dto
            = if (1 <? len (Split (inst.DashboardURL instance) "."%char))%Z
              then default "" (Split (inst.DashboardURL instance) "."%char !! 1)
              else "").
  { destruct (String.eqb (PlatformRegion pp) ""); cbn zeta in Hdto;
      destruct (1 <? len (Split (inst.DashboardURL instance) "."%char))%Z;
      by injection Hdto as <-. }
  rewrite Hshoot. clear Hshoot Hdto. repeat split.
  - intros host shoot Hh Hs ->. rewrite (Split_app _ _ _ Hh), (Split_free _ _ Hs).
    done.
  - intros host shoot rest Hh Hs ->. rewrite !Split_app by done.
    pose proof (Split_not_nil rest "."%char).
    destruct (Split rest "."%char) as [|p ps]; [done|].
    unfold len. cbn [length].
    by replace (1 <? Z.of_nat (S (S (S (length ps)))))%Z with true
      by (symmetry; apply Z.ltb_lt; lia).
  - intros Hf. by rewrite (Split_free _ _ Hf).
Qed.

Lemma NewDTO_ShootName_witness :
  NewDTO sampleGetParameters (newConverter "cf-eu10") sampleInstance
  = ((NewDTO sampleGetParameters (newConverter "cf-eu10") sampleInstance).1, None)
  ∧ free "."%char "https://console" ∧ free "."%char "c-1a2b3c"
  ∧ inst.DashboardURL sampleInstance
    = "https://console" +:+ String "."%char
        ("c-1a2b3c" +:+ String "."%char "kyma.example.com")
  ∧ pkg.ShootName
      (NewDTO sampleGetParameters (newConverter "cf-eu10") sampleInstance).1
    = "c-1a2b3c".
Proof.
  assert (H0 : NewDTO sampleGetParameters (newConverter "cf-eu10") sampleInstance
               = ((NewDTO sampleGetParameters (newConverter "cf-eu10")
                     sampleInstance).1, None))
    by (vm_compute; reflexivity).
  assert (H1 : free "."%char "https://console")
    by (cbn; repeat split; discriminate).
  assert (H2 : free "."%char "c-1a2b3c") by (cbn; repeat split; discriminate).
  assert (H3 : inst.DashboardURL sampleInstance
               = "https://console" +:+ String "."%char
                   ("c-1a2b3c" +:+ String "."%char "kyma.example.com"))
    by reflexivity.
  repeat (split; [assumption|]).
  exact (proj1 (proj2 (NewDTO_ShootName sampleGetParameters
                         (newConverter "cf-eu10") sampleInstance _ H0))
           "https://console" "c-1a2b3c" "kyma.example.com" H1 H2 H3).
Defined.

(** X20. [NewDTO] and [ApplyProvisioningOperation] together.  When the
    provisioning parameters are read, [NewDTO] returns no error and a DTO on
    which [ApplyProvisioningOperation] does not panic; its sub-account
    region is the platform region of the parameters, or the converter's
    default when that is empty.  When they cannot be read, [NewDTO] returns
    the error wrapped twice and the zero DTO, and applying a provisioning
    operation to that DTO panics on its [nil] [Provisioning]. *)
Theorem NewDTO_then_ApplyProvisioningOperation {E : Type}
    (GetProvisioningParameters : inst.Instance → E + ProvisioningParameters)
    (c : converter) (instance : inst.Instance)
    (mem : gmap positive Operation) (pOpr : positive) :
  (∀ pp, GetProvisioningParameters instance = inr pp →
     (NewDTO GetProvisioningParameters c instance).2 = None
     ∧ pkg.SubAccountRegion (NewDTO GetProvisioningParameters c instance).1
       = (if String.eqb (PlatformRegion pp) ""
          then defaultSubaccountRegion c else PlatformRegion pp)
     ∧ ∃ dto, ApplyProvisioningOperation mem
                (NewDTO GetProvisioningParameters c instance).1 (Some pOpr)
              = Returns dto
         ∧ pkg.Provisioning (pkg.Status dto)
           = Some (copyOperation mem pOpr zeroPkgOperation))
  ∧ (∀ e, GetProvisioningParameters instance = inl e →
       NewDTO GetProvisioningParameters c instance
       = (zeroRuntimeDTO,
          Some (Wrap "while setting region"
                  (Wrap "while getting provisioning parameters" (Cause e))))
       ∧ ApplyProvisioningOperation mem
           (NewDTO GetProvisioningParameters c instance).1 (Some pOpr)
         = Panics).
Proof.
  unfold NewDTO, setRegionOrDefault. split.
  - intros pp ->.
    destruct (String.eqb (PlatformRegion pp) ""); cbn zeta;
      destruct (1 <? len (Split (inst.DashboardURL instance) "."%char))%Z;
      (split; [done|]); (split; [done|]); eexists; split; reflexivity.
  - intros e ->. done.
Qed.

Lemma NewDTO_then_ApplyProvisioningOperation_witness :
  sampleGetParametersFails sampleInstance = inl "unexpected end of JSON input"
  ∧ NewDTO sampleGetParametersFails (newConverter "cf-eu10") sampleInstance
    = (zeroRuntimeDTO,
       Some (Wrap "while setting region"
               (Wrap "while getting provisioning parameters"
                  (Cause "unexpected end of JSON input"))))
  ∧ ApplyProvisioningOperation sampleMem
      (NewDTO sampleGetParametersFails (newConverter "cf-eu10") sampleInstance).1
      (Some 1%positive)
    = Panics.
Proof.
  assert (H : sampleGetParametersFails sampleInstance
              = inl "unexpected end of JSON input") by reflexivity.
  split; [exact H|].
  exact (proj2 (NewDTO_then_ApplyProvisioningOperation sampleGetParametersFails
                  (newConverter "cf-eu10") sampleInstance sampleMem 1%positive)
           _ H).
Defined.

(** ** applyOperation keeps an orchestration id it does not replace *)

(** X21. Applying first a provisioning operation that belongs to an
    orchestration and then one that does not leaves a DTO whose id, time,
    state and description are the second operation's while its
    [OrchestrationID] still points at the first one's.
    [ApplyDeprovisioningOperation], which starts from a fresh target each
    time, reports no orchestration id after the same two calls. *)
Theorem ApplyProvisioningOperation_keeps_old_OrchestrationID
    (mem : gmap positive Operation) (dto : pkg.RuntimeDTO)
    (first second : positive) (opA opB : Operation) (target : pkg.Operation) :
  mem !! first = Some opA →
  mem !! second = Some opB →
  OrchestrationID opA ≠ "" →
  OrchestrationID opB = "" →
  pkg.Provisioning (pkg.Status dto) = Some target →
  (∃ dto1 dto2 shown,
     ApplyProvisioningOperation mem dto (Some first) = Returns dto1
     ∧ ApplyProvisioningOperation mem dto1 (Some second) = Returns dto2
     ∧ pkg.Provisioning (pkg.Status dto2) = Some shown
     ∧ pkg.OperationID shown = ID opB
     ∧ pkg.CreatedAt shown = CreatedAt opB
     ∧ pkg.State shown = State opB
     ∧ pkg.Description shown = Description opB
     ∧ readOrchestrationID mem shown = Some (OrchestrationID opA))
  ∧ (∃ dto1 dto2 shown,
       ApplyDeprovisioningOperation mem dto (Some first) = Returns dto1
       ∧ ApplyDeprovisioningOperation mem dto1 (Some second) = Returns dto2
       ∧ pkg.Deprovisioning (pkg.Status dto2) = Some shown
       ∧ pkg.OperationID shown = ID opB
       ∧ readOrchestrationID mem shown = None).
Proof.
  intros Ha Hb Hna Hnb Ht.
  assert (Ea : String.eqb (OrchestrationID opA) "" = false)
    by by apply String.eqb_neq.
  assert (Eb : String.eqb (OrchestrationID opB) "" = true)
    by by apply String.eqb_eq.
  split.
  - do 3 eexists.
    split; [unfold ApplyProvisioningOperation, applyOperation;
            rewrite Ht; reflexivity|].
    split; [unfold ApplyProvisioningOperation, applyOperation; reflexivity|].
    split; [reflexivity|].
    unfold readOrchestrationID, copyOperation.
    rewrite Ha, Hb. cbn [default id pkg.OperationID pkg.CreatedAt pkg.State
                         pkg.Description pkg.OrchestrationID].
    rewrite Ea, Eb. cbn [negb]. rewrite Ha. by repeat split.
  - do 3 eexists.
    split; [unfold ApplyDeprovisioningOperation, applyOperation; reflexivity|].
    split; [unfold ApplyDeprovisioningOperation, applyOperation; reflexivity|].
    split; [reflexivity|].
    unfold readOrchestrationID, copyOperation.
    rewrite Hb. cbn [default id pkg.OperationID pkg.OrchestrationID].
    rewrite Eb. by repeat split.
Qed.

Lemma ApplyProvisioningOperation_keeps_old_OrchestrationID_witness :
  sampleMem !! 1%positive
  = Some (mkOperation "op-a" 0 1 "inst-1" Succeeded "done" "orch-1")
  ∧ sampleMem !! 2%positive
    = Some (mkOperation "op-b" 0 2 "inst-1" InProgress "" "")
  ∧ "orch-1" ≠ "" ∧ "" = ""
  ∧ pkg.Provisioning
      (pkg.Status (NewDTO sampleGetParameters (newConverter "cf-eu10")
                     sampleInstance).1)
    = Some zeroPkgOperation
  ∧ ∃ dto1 dto2 shown,
      ApplyProvisioningOperation sampleMem
        (NewDTO sampleGetParameters (newConverter "cf-eu10") sampleInstance).1
        (Some 1%positive) = Returns dto1
      ∧ ApplyProvisioningOperation sampleMem dto1 (Some 2%positive) = Returns dto2
      ∧ pkg.Provisioning (pkg.Status dto2) = Some shown
      ∧ pkg.OperationID shown = "op-b"
      ∧ pkg.CreatedAt shown = 2%Z
      ∧ pkg.State shown = InProgress
      ∧ pkg.Description shown = ""
      ∧ readOrchestrationID sampleMem shown = Some "orch-1".
Proof.
  assert (H1 : sampleMem !! 1%positive
               = Some (mkOperation "op-a" 0 1 "inst-1" Succeeded "done" "orch-1"))
    by (vm_compute; reflexivity).
  assert (H2 : sampleMem !! 2%positive
               = Some (mkOperation "op-b" 0 2 "inst-1" InProgress "" ""))
    by (vm_compute; reflexivity).
  assert (H3 : "orch-1" ≠ "") by discriminate.
  assert (H4 : "" = "") by reflexivity.
  assert (H5 : pkg.Provisioning
                 (pkg.Status (NewDTO sampleGetParameters (newConverter "cf-eu10")
                                sampleInstance).1)
               = Some zeroPkgOperation) by (vm_compute; reflexivity).
  repeat (split; [assumption|]).
  exact (proj1 (ApplyProvisioningOperation_keeps_old_OrchestrationID
                  sampleMem _ 1%positive 2%positive _ _ _ H1 H2 H3 H4 H5)).
Defined.

(** ** ApplyUpgradingKymaOperations *)

Lemma copyOperation_loop_cell mem o opr :
  copyOperation (<[o := uOperation opr]> mem) o zeroPkgOperation = entryFor o opr.
Proof. unfold copyOperation, entryFor. by rewrite lookup_insert_eq. Qed.

Lemma upgrading_loop (o : positive) (oprs : list UpgradeKymaOperation)
    (mem : gmap positive Operation) (data : pkg.OperationsData) :
  foldl (λ '(mem, data) opr,
           let mem := <[o := uOperation opr]> mem in
           let op := copyOperation mem o zeroPkgOperation in
           (mem, pkg.mkOperationsData (pkg.Data data ++ [op])
                   (pkg.TotalCount data) (pkg.Count data)))
        (mem, data) oprs
  = (match last oprs with
     | Some lastOpr => <[o := uOperation lastOpr]> mem
     | None => mem
     end,
     pkg.mkOperationsData (pkg.Data data ++ (entryFor o <$> oprs))
       (pkg.TotalCount data) (pkg.Count data)).
Proof.
  revert mem data. induction oprs as [|opr oprs IH]; intros mem data.
  - cbn. rewrite app_nil_r. by destruct data.
  - cbn [foldl]. cbn zeta. rewrite copyOperation_loop_cell, IH.
    cbn [pkg.Data pkg.TotalCount pkg.Count fmap list_fmap].
    rewrite <- app_assoc. cbn [app]. f_equal.
    destruct oprs as [|opr' oprs']; [done|].
    change (last (opr :: opr' :: oprs')) with (last (opr' :: oprs')).
    destruct (last (opr' :: oprs')) as [l|] eqn:El.
    + apply insert_insert_eq.
    + by apply last_None in El.
Qed.

(** X22. [ApplyUpgradingKymaOperations] replaces the upgrade data of the
    DTO: [TotalCount] is the number passed in (not checked against the
    list), [Count] the length of the list, and [Data] has one entry per
    operation, in order, with that operation's id, creation time, state and
    description.  What the DTO held there before plays no part, and the
    provisioning and deprovisioning entries are not touched. *)
Theorem ApplyUpgradingKymaOperations_data (mem : gmap positive Operation)
    (dto : pkg.RuntimeDTO) (oprs : list UpgradeKymaOperation) (totalCount : Z) :
  let upgrading :=
    pkg.UpgradingKyma
      (pkg.Status (ApplyUpgradingKymaOperations mem dto oprs totalCount).2) in
  pkg.TotalCount upgrading = totalCount
  ∧ pkg.Count upgrading = len oprs
  ∧ length (pkg.Data upgrading) = length oprs
  ∧ (∀ i opr, oprs !! i = Some opr →
       ∃ entry, pkg.Data upgrading !! i = Some entry
         ∧ pkg.OperationID entry = ID (uOperation opr)
         ∧ pkg.CreatedAt entry = CreatedAt (uOperation opr)
         ∧ pkg.State entry = State (uOperation opr)
         ∧ pkg.Description entry = Description (uOperation opr))
  ∧ (∀ previous,
       ApplyUpgradingKymaOperations mem
         (setStatus (setUpgradingKyma previous (pkg.Status dto)) dto)
         oprs totalCount
       = ApplyUpgradingKymaOperations mem dto oprs totalCount)
  ∧ pkg.Provisioning
      (pkg.Status (ApplyUpgradingKymaOperations mem dto oprs totalCount).2)
    = pkg.Provisioning (pkg.Status dto)
  ∧ pkg.Deprovisioning
      (pkg.Status (ApplyUpgradingKymaOperations mem dto oprs totalCount).2)
    = pkg.Deprovisioning (pkg.Status dto).
Proof.
  unfold ApplyUpgradingKymaOperations. cbn zeta.
  rewrite upgrading_loop. cbn.
  repeat split.
  - by rewrite length_fmap.
  - intros i opr Hi. exists (entryFor (fresh (dom mem)) opr).
    split; [|done]. rewrite list_lookup_fmap.
    match goal with |- context [oprs !! i] => rewrite Hi end. done.
Qed.

Lemma ApplyUpgradingKymaOperations_data_witness :
  [sampleU1; sampleU2] !! 1%nat = Some sampleU2
  ∧ ∃ entry,
      pkg.Data (pkg.UpgradingKyma
                  (pkg.Status (ApplyUpgradingKymaOperations sampleMem
                                 zeroRuntimeDTO [sampleU1; sampleU2] 7).2))
        !! 1%nat = Some entry
      ∧ pkg.OperationID entry = ID (uOperation sampleU2)
      ∧ pkg.CreatedAt entry = CreatedAt (uOperation sampleU2)
      ∧ pkg.State entry = State (uOperation sampleU2)
      ∧ pkg.Description entry = Description (uOperation sampleU2).
Proof.
  assert (H : [sampleU1; sampleU2] !! 1%nat = Some sampleU2) by reflexivity.
  split; [exact H|].
  exact (proj1 (proj2 (proj2 (proj2
           (ApplyUpgradingKymaOperations_data sampleMem zeroRuntimeDTO
              [sampleU1; sampleU2] 7)))) 1%nat sampleU2 H).
Defined.

(** X23. All entries [ApplyUpgradingKymaOperations] writes share one
    [OrchestrationID] pointer, the address of the field in the loop's range
    variable.  After the call an entry made from an operation with an
    orchestration id reads the orchestration id of the last operation of the
    list, whatever its own was (the empty string when the last operation has
    none); an entry made from an operation without one has a [nil]
    pointer. *)
Theorem ApplyUpgradingKymaOperations_shared_OrchestrationID
    (mem : gmap positive Operation) (dto : pkg.RuntimeDTO)
    (oprs : list UpgradeKymaOperation) (totalCount : Z)
    (lastOpr : UpgradeKymaOperation) :
  last oprs = Some lastOpr →
  ∀ i opr, oprs !! i = Some opr →
    ∃ entry,
      pkg.Data (pkg.UpgradingKyma
                  (pkg.Status (ApplyUpgradingKymaOperations mem dto oprs
                                 totalCount).2)) !! i = Some entry
      ∧ (OrchestrationID (uOperation opr) ≠ "" →
         readOrchestrationID
           (ApplyUpgradingKymaOperations mem dto oprs totalCount).1 entry
         = Some (OrchestrationID (uOperation lastOpr)))
      ∧ (OrchestrationID (uOperation opr) = "" →
         pkg.OrchestrationID entry = None).
Proof.
  intros Hlast i opr Hi.
  unfold ApplyUpgradingKymaOperations. cbn zeta.
  rewrite upgrading_loop, Hlast. cbn.
  exists (entryFor (fresh (dom mem)) opr). split.
  - rewrite list_lookup_fmap.
    match goal with |- context [oprs !! i] => rewrite Hi end. done.
  - unfold readOrchestrationID, entryFor. cbn [pkg.OrchestrationID]. split.
    + intros Hne. rewrite (proj2 (String.eqb_neq _ _) Hne). cbn [negb].
      by rewrite lookup_insert_eq.
    + intros ->. done.
Qed.

Lemma ApplyUpgradingKymaOperations_shared_OrchestrationID_witness :
  last [sampleU1; sampleU2] = Some sampleU2
  ∧ [sampleU1; sampleU2] !! 0%nat = Some sampleU1
  ∧ OrchestrationID (uOperation sampleU1) ≠ ""
  ∧ ∃ entry,
      pkg.Data (pkg.UpgradingKyma
                  (pkg.Status (ApplyUpgradingKymaOperations sampleMem
                                 zeroRuntimeDTO [sampleU1; sampleU2] 2).2))
        !! 0%nat = Some entry
      ∧ pkg.OperationID entry = "op-1"
      ∧ readOrchestrationID
          (ApplyUpgradingKymaOperations sampleMem zeroRuntimeDTO
             [sampleU1; sampleU2] 2).1 entry
        = Some "orch-2".
Proof.
  assert (H1 : last [sampleU1; sampleU2] = Some sampleU2) by reflexivity.
  assert (H2 : [sampleU1; sampleU2] !! 0%nat = Some sampleU1) by reflexivity.
  assert (H3 : OrchestrationID (uOperation sampleU1) ≠ "") by discriminate.
  repeat (split; [assumption|]).
  destruct (ApplyUpgradingKymaOperations_shared_OrchestrationID sampleMem
              zeroRuntimeDTO [sampleU1; sampleU2] 2 sampleU2 H1 0%nat sampleU1 H2)
    as (entry & Hentry & Hread & _).
  exists entry. split; [exact Hentry|]. split; [|exact (Hread H3)].
  vm_compute in Hentry. injection Hentry as <-. reflexivity.
Defined.
